(** * The Long Tale: Hoberman sphere linkage geometry

    A shallow embedding of [js/ScissorLink.js] and [js/HobermanSphere.js].

    Conventions of the embedding.
    - A JavaScript number is a mathematical real ([R]); [Math.sin],
      [Math.cos], [Math.sqrt], [Math.abs], [Math.max] and [Math.min] are
      [sin], [cos], [sqrt], [Rabs], [Rmax] and [Rmin].  [Math.PI] is the
      double it denotes, [Math_PI], a rational a little below the real
      [PI].  Rounding and the special values of IEEE doubles are outside
      this model; where overflow and underflow decide what the code
      stores, [Vector3.normalize] is written out a second time over
      binary64 numbers ([Binary64.normalize]).
    - three.js objects are mutable and their methods chain; here every
      method is a pure function returning the updated value, and [clone] is
      the identity.  The three.js routines the two classes call
      ([Vector3], [Quaternion], [Object3D.rotateOnAxis]) are written out
      after release r128, the one the page loads.
    - An exception is a [Throw] completion; the constructors run in the
      completion monad so that "construction fails" can be stated. *)

From Stdlib Require Import Reals Lra List String Bool Arith Lia.
From Stdlib Require Import Machin.
From Stdlib Require PrimFloat.
Import ListNotations.

Open Scope R_scope.

(** ** JavaScript scaffolding *)

(** [Math.PI]: the double nearest to the circle constant,
    [0x1.921fb54442d18p+1 = 7074237752028440 / 2^51], that is
    3.141592653589793115997963... *)
Definition Math_PI : R := 884279719003555 / 281474976710656.

(** [a || b] on numbers: [b] when [a] is falsy (zero), [a] otherwise. *)
Definition js_or (a b : R) : R :=
  if Req_dec_T a 0 then b else a.

(** [o.field || d] where the field may be absent. *)
Definition js_default (o : option R) (d : R) : R :=
  match o with
  | Some a => js_or a d
  | None => d
  end.

(** Completion of a call: a value, or an exception carrying a message. *)
Inductive Completion (A : Type) : Type :=
| Normal (a : A)
| Throw (msg : string).
Arguments Normal {A} a.
Arguments Throw {A} msg.

Definition bind {A B : Type} (c : Completion A) (k : A -> Completion B)
  : Completion B :=
  match c with
  | Normal a => k a
  | Throw m => Throw m
  end.

Notation "x <- c ;; k" := (bind c (fun x => k))
  (at level 61, c at next level, right associativity).
Notation "' p <- c ;; k" := (bind c (fun p => k))
  (at level 61, p pattern, c at next level, right associativity).

(** ** THREE.Vector3 *)

Record Vector3 : Type := V3 { vx : R; vy : R; vz : R }.

Module Vector3.

Definition zero : Vector3 := V3 0 0 0.

Definition clone (v : Vector3) : Vector3 := v.

Definition add (a b : Vector3) : Vector3 :=
  V3 (vx a + vx b) (vy a + vy b) (vz a + vz b).

Definition addVectors (a b : Vector3) : Vector3 := add a b.

Definition subVectors (a b : Vector3) : Vector3 :=
  V3 (vx a - vx b) (vy a - vy b) (vz a - vz b).

Definition multiplyScalar (v : Vector3) (s : R) : Vector3 :=
  V3 (vx v * s) (vy v * s) (vz v * s).

Definition divideScalar (v : Vector3) (s : R) : Vector3 :=
  multiplyScalar v (1 / s).

Definition dot (a b : Vector3) : R :=
  vx a * vx b + vy a * vy b + vz a * vz b.

Definition crossVectors (a b : Vector3) : Vector3 :=
  V3 (vy a * vz b - vz a * vy b)
     (vz a * vx b - vx a * vz b)
     (vx a * vy b - vy a * vx b).

Definition lengthSq (v : Vector3) : R :=
  vx v * vx v + vy v * vy v + vz v * vz v.

Definition length (v : Vector3) : R := sqrt (lengthSq v).

(** [this.divideScalar(this.length() || 1)]: the zero vector stays zero. *)
Definition normalize (v : Vector3) : Vector3 :=
  divideScalar v (js_or (length v) 1).

Definition distanceToSquared (a b : Vector3) : R :=
  let dx := vx a - vx b in
  let dy := vy a - vy b in
  let dz := vz a - vz b in
  dx * dx + dy * dy + dz * dz.

Definition distanceTo (a b : Vector3) : R := sqrt (distanceToSquared a b).

End Vector3.

(** ** [Vector3.normalize] over binary64

    The same three.js routines with the numbers as IEEE doubles, every
    operation rounded, overflowing to infinity and underflowing to zero as
    the JavaScript operators and [Math.sqrt] do.  It is used where the
    range of doubles decides what [normalize] stores. *)

Module Binary64.

Import PrimFloat.
Local Open Scope float_scope.

Record Vector3 : Set := V3 { vx : float; vy : float; vz : float }.

(** [a || b] on doubles: [b] when [a] is falsy (a zero or NaN). *)
Definition js_or (a b : float) : float :=
  if (a =? 0) || is_nan a then b else a.

Definition multiplyScalar (v : Vector3) (s : float) : Vector3 :=
  V3 (vx v * s) (vy v * s) (vz v * s).

Definition divideScalar (v : Vector3) (s : float) : Vector3 :=
  multiplyScalar v (1 / s).

Definition length (v : Vector3) : float :=
  sqrt (vx v * vx v + vy v * vy v + vz v * vz v).

Definition normalize (v : Vector3) : Vector3 :=
  divideScalar v (js_or (length v) 1).

(** Sample vectors: the zero vector, and two non-zero axes whose squared
    lengths leave the range of doubles, (1e200, 0, 0) and
    (1e-200, 0, 0), the literals written as the doubles they denote. *)
Definition zero : Vector3 := V3 0 0 0.
Definition huge_axis : Vector3 := V3 0x1.4e718d7d7625ap+664 0 0.
Definition tiny_axis : Vector3 := V3 0x1.87e92154ef7acp-665 0 0.

End Binary64.

(** ** THREE.Quaternion *)

Record Quaternion : Type := Quat { qx : R; qy : R; qz : R; qw : R }.

Module Quaternion.

Definition identity : Quaternion := Quat 0 0 0 1.

Definition length (q : Quaternion) : R :=
  sqrt (qx q * qx q + qy q * qy q + qz q * qz q + qw q * qw q).

Definition normalize (q : Quaternion) : Quaternion :=
  let l := length q in
  if Req_dec_T l 0 then identity
  else
    let l' := 1 / l in
    Quat (qx q * l') (qy q * l') (qz q * l') (qw q * l').

(** Assumes both arguments are unit vectors. *)
Definition setFromUnitVectors (vFrom vTo : Vector3) : Quaternion :=
  let EPS := 0.000001 in
  let r := Vector3.dot vFrom vTo + 1 in
  if Rlt_dec r EPS then
    if Rlt_dec (Rabs (vz vFrom)) (Rabs (vx vFrom)) then
      normalize (Quat (- vy vFrom) (vx vFrom) 0 0)
    else
      normalize (Quat 0 (- vz vFrom) (vy vFrom) 0)
  else
    normalize
      (Quat (vy vFrom * vz vTo - vz vFrom * vy vTo)
            (vz vFrom * vx vTo - vx vFrom * vz vTo)
            (vx vFrom * vy vTo - vy vFrom * vx vTo)
            r).

Definition setFromAxisAngle (axis : Vector3) (angle : R) : Quaternion :=
  let halfAngle := angle / 2 in
  let s := sin halfAngle in
  Quat (vx axis * s) (vy axis * s) (vz axis * s) (cos halfAngle).

Definition multiply (a b : Quaternion) : Quaternion :=
  Quat (qx a * qw b + qw a * qx b + qy a * qz b - qz a * qy b)
       (qy a * qw b + qw a * qy b + qz a * qx b - qx a * qz b)
       (qz a * qw b + qw a * qz b + qx a * qy b - qy a * qx b)
       (qw a * qw b - qx a * qx b - qy a * qy b - qz a * qz b).

End Quaternion.

(** ** Materials, geometries and meshes *)

Record Material : Type := MeshStandardMaterial {
  color : R;
  metalness : R;
  roughness : R;
  emissive : R;
  emissiveIntensity : R
}.

Inductive Geometry : Type :=
| CylinderGeometry (radiusTop radiusBottom height radialSegments : R)
| SphereGeometry (radius widthSegments heightSegments : R).

(** [geometry.parameters.height]; a sphere has no such parameter. *)
Definition parameters_height (g : Geometry) : option R :=
  match g with
  | CylinderGeometry _ _ h _ => Some h
  | SphereGeometry _ _ _ => None
  end.

(** The data [createConnectionStrut] stores on a mesh. *)
Record ConnectionData : Type := mkConnectionData {
  point1 : Vector3;
  point2 : Vector3
}.

(** [userData] is either the empty object every mesh starts with ([None])
    or [{isConnectionStrut: true, point1, point2}]. *)
Definition UserData : Type := option ConnectionData.

Definition isConnectionStrut (u : UserData) : bool :=
  match u with
  | Some _ => true
  | None => false
  end.

Module Mesh.

Record Mesh : Type := mk {
  geometry : Geometry;
  material : Material;
  position : Vector3;
  quaternion : Quaternion;
  scale : Vector3;
  userData : UserData
}.

(** [new THREE.Mesh(geometry, material)] with the [Object3D] defaults. *)
Definition new (g : Geometry) (m : Material) : Mesh :=
  mk g m Vector3.zero Quaternion.identity (V3 1 1 1) None.

Definition set_material (o : Mesh) (m : Material) : Mesh :=
  mk (geometry o) m (position o) (quaternion o) (scale o) (userData o).

Definition set_position (o : Mesh) (p : Vector3) : Mesh :=
  mk (geometry o) (material o) p (quaternion o) (scale o) (userData o).

Definition set_quaternion (o : Mesh) (q : Quaternion) : Mesh :=
  mk (geometry o) (material o) (position o) q (scale o) (userData o).

Definition set_scale_y (o : Mesh) (s : R) : Mesh :=
  mk (geometry o) (material o) (position o) (quaternion o)
     (V3 (vx (scale o)) s (vz (scale o))) (userData o).

Definition set_userData (o : Mesh) (u : UserData) : Mesh :=
  mk (geometry o) (material o) (position o) (quaternion o) (scale o) u.

(** [Object3D.rotateOnAxis]: multiply the orientation on the right by the
    rotation of [angle] about [axis]. *)
Definition rotateOnAxis (o : Mesh) (axis : Vector3) (angle : R) : Mesh :=
  set_quaternion o
    (Quaternion.multiply (quaternion o)
                         (Quaternion.setFromAxisAngle axis angle)).

End Mesh.

(** ** ScissorLink.js *)

(** The three meshes a link owns; a scene refers to them by these tags. *)
Inductive LinkPart : Type := Strut1 | Strut2 | Pivot.

(** A call of [dispose()] on a geometry or on a material. *)
Inductive Disposal : Type :=
| DisposeGeometry (g : Geometry)
| DisposeMaterial (m : Material).

Record Endpoints : Type := mkEndpoints {
  top1 : Vector3;
  top2 : Vector3;
  bottom1 : Vector3;
  bottom2 : Vector3
}.

Module ScissorLink.

(** The object once [initialize] has run: the three meshes exist. *)
Record ScissorLink : Type := mk {
  position : Vector3;
  axis : Vector3;
  strutLength : R;
  strutRadius : R;
  material : Material;
  expansionFactor : R;
  strut1 : Mesh.Mesh;
  strut2 : Mesh.Mesh;
  pivot : Mesh.Mesh;
  endpoints : Endpoints
}.

Definition updateEndpoints (this : ScissorLink)
           (openAngle halfLength : R) (perpAxis1 perpAxis2 : Vector3)
  : ScissorLink :=
  let offset := halfLength * sin openAngle in
  let height := halfLength * cos openAngle in
  let top1 :=
    Vector3.add
      (Vector3.add (position this)
                   (Vector3.multiplyScalar (axis this) height))
      (Vector3.multiplyScalar perpAxis1 offset) in
  let top2 :=
    Vector3.add
      (Vector3.add (position this)
                   (Vector3.multiplyScalar (axis this) height))
      (Vector3.multiplyScalar perpAxis1 (- offset)) in
  let bottom1 :=
    Vector3.add
      (Vector3.add (position this)
                   (Vector3.multiplyScalar (axis this) (- height)))
      (Vector3.multiplyScalar perpAxis1 offset) in
  let bottom2 :=
    Vector3.add
      (Vector3.add (position this)
                   (Vector3.multiplyScalar (axis this) (- height)))
      (Vector3.multiplyScalar perpAxis1 (- offset)) in
  mk (position this) (axis this) (strutLength this) (strutRadius this)
     (material this) (expansionFactor this)
     (strut1 this) (strut2 this) (pivot this)
     (mkEndpoints top1 top2 bottom1 bottom2).

(** First perpendicular of [updateGeometry], before normalisation. *)
Definition perpAxis1_raw (a : Vector3) : Vector3 :=
  if Rlt_dec (Rabs (vy a)) 0.9 then
    Vector3.crossVectors a (V3 0 1 0)
  else
    Vector3.crossVectors a (V3 1 0 0).

Definition perpAxis1_of (a : Vector3) : Vector3 :=
  Vector3.normalize (perpAxis1_raw a).

Definition perpAxis2_of (a : Vector3) : Vector3 :=
  Vector3.normalize (Vector3.crossVectors a (perpAxis1_of a)).

Definition updateGeometry (this : ScissorLink) : ScissorLink :=
  let openAngle := expansionFactor this * Math_PI / 2 in
  let perpAxis1 := perpAxis1_of (axis this) in
  let perpAxis2 := perpAxis2_of (axis this) in
  let halfLength := strutLength this / 2 in
  let offset := halfLength * sin openAngle in
  (* strut 1 *)
  let strut1Pos :=
    Vector3.add (Vector3.clone (position this))
                (Vector3.multiplyScalar (Vector3.clone perpAxis1) offset) in
  let s1 := Mesh.set_position (strut1 this) strut1Pos in
  let s1 := Mesh.set_quaternion s1
              (Quaternion.setFromUnitVectors (V3 0 1 0) (axis this)) in
  let s1 := Mesh.rotateOnAxis s1 perpAxis2 openAngle in
  (* strut 2 *)
  let strut2Pos :=
    Vector3.add (Vector3.clone (position this))
                (Vector3.multiplyScalar (Vector3.clone perpAxis1)
                                        (- offset)) in
  let s2 := Mesh.set_position (strut2 this) strut2Pos in
  let s2 := Mesh.set_quaternion s2
              (Quaternion.setFromUnitVectors (V3 0 1 0) (axis this)) in
  let s2 := Mesh.rotateOnAxis s2 perpAxis2 (- openAngle) in
  (* pivot *)
  let pv := Mesh.set_position (pivot this) (position this) in
  updateEndpoints
    (mk (position this) (axis this) (strutLength this) (strutRadius this)
        (material this) (expansionFactor this) s1 s2 pv (endpoints this))
    openAngle halfLength perpAxis1 perpAxis2.

(** [constructor] followed by [initialize].  The second component lists
    the meshes handed to [scene.add], in call order.  The source has no
    [throw]; three.js [normalize] guards the zero vector itself. *)
Definition constructor (position axis : Vector3) (length radius : R)
           (material : Material)
  : Completion (ScissorLink * list LinkPart) :=
  let position := Vector3.clone position in
  let axis := Vector3.normalize (Vector3.clone axis) in
  let expansionFactor := 0.5 in
  let endpoints :=
    mkEndpoints Vector3.zero Vector3.zero Vector3.zero Vector3.zero in
  (* initialize() *)
  let strutGeometry := CylinderGeometry radius radius length 8 in
  let strut1 := Mesh.new strutGeometry material in
  let strut2 := Mesh.new strutGeometry material in
  let pivotGeometry := SphereGeometry (radius * 2) 16 16 in
  let pivot := Mesh.new pivotGeometry material in
  let added := [Strut1; Strut2; Pivot] in
  Normal
    (updateGeometry
       (mk position axis length radius material expansionFactor
           strut1 strut2 pivot endpoints),
     added).

Definition setExpansion (this : ScissorLink) (factor : R) : ScissorLink :=
  updateGeometry
    (mk (position this) (axis this) (strutLength this) (strutRadius this)
        (material this) (Rmax 0 (Rmin 1 factor))
        (strut1 this) (strut2 this) (pivot this) (endpoints this)).

Definition updateMaterial (this : ScissorLink) (m : Material)
  : ScissorLink :=
  mk (position this) (axis this) (strutLength this) (strutRadius this)
     m (expansionFactor this)
     (Mesh.set_material (strut1 this) m)
     (Mesh.set_material (strut2 this) m)
     (Mesh.set_material (pivot this) m)
     (endpoints this).

Definition getCurrentRadius (this : ScissorLink) : R :=
  let openAngle := expansionFactor this * Math_PI / 2 in
  (strutLength this / 2) * cos openAngle.

(** [dispose()]: the meshes taken out of the scene, then the geometries
    disposed, both in call order.  The two struts share one geometry, which
    is therefore disposed twice. *)
Definition dispose (this : ScissorLink)
  : list LinkPart * list Disposal :=
  ([Strut1; Strut2; Pivot],
   [DisposeGeometry (Mesh.geometry (strut1 this));
    DisposeGeometry (Mesh.geometry (strut2 this));
    DisposeGeometry (Mesh.geometry (pivot this))]).

End ScissorLink.

(** ** HobermanSphere.js *)

(** [a < b] as the boolean a JavaScript comparison yields. *)
Definition Rltb (a b : R) : bool :=
  if Rlt_dec a b then true else false.

(** A child of [sphereGroup]: one of the three meshes of the link at a
    given index of [scissorLinks] (the link object and the group share that
    mesh), or a mesh only the group refers to. *)
Inductive Child : Type :=
| LinkMesh (link : nat) (part : LinkPart)
| OwnMesh (m : Mesh.Mesh).

Record Euler : Type := mkEuler { ex : R; ey : R; ez : R }.

Record Group : Type := mkGroup {
  children : list Child;
  rotation : Euler
}.

(** The [options] argument; an absent field is [None]. *)
Record Options : Type := mkOptions {
  opt_minRadius : option R;
  opt_maxRadius : option R;
  opt_strutRadius : option R;
  opt_subdivisions : option R;
  opt_color : option R;
  opt_materialType : option string
}.

Record Config : Type := mkConfig {
  minRadius : R;
  maxRadius : R;
  strutRadius : R;
  subdivisions : R;
  cfg_color : R;
  materialType : string
}.

Module HobermanSphere.

Record HobermanSphere : Type := mk {
  config : Config;
  expansionFactor : R;
  isAnimating : bool;
  animationSpeed : R;
  rotationSpeed : R;
  pitchSpeed : R;
  currentPitch : R;
  scissorLinks : list ScissorLink.ScissorLink;
  sphereGroup : Group;
  material : Material
}.

Definition set_expansionFactor (this : HobermanSphere) (f : R) :=
  mk (config this) f (isAnimating this) (animationSpeed this)
     (rotationSpeed this) (pitchSpeed this) (currentPitch this)
     (scissorLinks this) (sphereGroup this) (material this).

Definition set_isAnimating (this : HobermanSphere) (b : bool) :=
  mk (config this) (expansionFactor this) b (animationSpeed this)
     (rotationSpeed this) (pitchSpeed this) (currentPitch this)
     (scissorLinks this) (sphereGroup this) (material this).

Definition set_currentPitch (this : HobermanSphere) (p : R) :=
  mk (config this) (expansionFactor this) (isAnimating this)
     (animationSpeed this) (rotationSpeed this) (pitchSpeed this) p
     (scissorLinks this) (sphereGroup this) (material this).

Definition set_scissorLinks (this : HobermanSphere)
           (ls : list ScissorLink.ScissorLink) :=
  mk (config this) (expansionFactor this) (isAnimating this)
     (animationSpeed this) (rotationSpeed this) (pitchSpeed this)
     (currentPitch this) ls (sphereGroup this) (material this).

Definition set_sphereGroup (this : HobermanSphere) (g : Group) :=
  mk (config this) (expansionFactor this) (isAnimating this)
     (animationSpeed this) (rotationSpeed this) (pitchSpeed this)
     (currentPitch this) (scissorLinks this) g (material this).

(** [this.sphereGroup.add(o)] *)
Definition group_add (this : HobermanSphere) (cs : list Child) :=
  set_sphereGroup this
    (mkGroup (children (sphereGroup this) ++ cs)
             (rotation (sphereGroup this))).

Definition set_rotation (this : HobermanSphere) (e : Euler) :=
  set_sphereGroup this (mkGroup (children (sphereGroup this)) e).

Definition createMaterial (color : R) (type : string) : Material :=
  if String.eqb type "metallic" then
    MeshStandardMaterial color 0.9 0.2 color 0.1
  else if String.eqb type "matte" then
    MeshStandardMaterial color 0.0 0.9 color 0.05
  else if String.eqb type "glossy" then
    MeshStandardMaterial color 0.3 0.1 color 0.15
  else
    (* emissive and emissiveIntensity keep the three.js defaults *)
    MeshStandardMaterial color 0.9 0.2 0 1.

(** The loop of [buildSphere] over the flat position array, three
    numbers at a time; [new THREE.Vector3] defaults a missing
    coordinate to 0. *)
Fixpoint vertexPositions (vertices : list R) : list Vector3 :=
  match vertices with
  | [] => []
  | a :: [] => [V3 a 0 0]
  | a :: b :: [] => [V3 a b 0]
  | a :: b :: c :: rest => V3 a b c :: vertexPositions rest
  end.

Definition removeDuplicateVertices (vertices : list Vector3)
  : list Vector3 :=
  let threshold := 0.0001 in
  fold_left
    (fun unique v =>
       let isDuplicate :=
         existsb (fun u => Rltb (Vector3.distanceTo u v) threshold)
                 unique in
       if negb isDuplicate then unique ++ [v] else unique)
    vertices [].

Definition createRadialScissorLink (this : HobermanSphere)
           (vertex : Vector3) : Completion HobermanSphere :=
  let direction := Vector3.normalize (Vector3.clone vertex) in
  let midPoint :=
    Vector3.multiplyScalar (Vector3.clone direction)
                           (maxRadius (config this) * 0.5) in
  let strutLength := maxRadius (config this) * 0.5 in
  ' (scissorLink, added) <-
    ScissorLink.constructor midPoint direction strutLength
      (strutRadius (config this)) (material this) ;;
  let index := List.length (scissorLinks this) in
  let this := group_add this (map (LinkMesh index) added) in
  Normal (set_scissorLinks this (scissorLinks this ++ [scissorLink])).

Definition createConnectionStrut (this : HobermanSphere)
           (point1 point2 : Vector3) : HobermanSphere :=
  let direction := Vector3.subVectors point2 point1 in
  let length := Vector3.length direction in
  let midpoint :=
    Vector3.multiplyScalar (Vector3.addVectors point1 point2) 0.5 in
  let geometry :=
    CylinderGeometry (strutRadius (config this) * 0.5)
                     (strutRadius (config this) * 0.5) length 6 in
  let strut := Mesh.new geometry (material this) in
  let strut := Mesh.set_position strut midpoint in
  let axis := V3 0 1 0 in
  let strut :=
    Mesh.set_quaternion strut
      (Quaternion.setFromUnitVectors axis (Vector3.normalize direction)) in
  let strut :=
    Mesh.set_userData strut
      (Some (mkConnectionData (Vector3.clone point1)
                              (Vector3.clone point2))) in
  group_add this [OwnMesh strut].

(** The inner loop over [j > i] is the fold over the rest of the list,
    the outer loop over [i] the recursion. *)
Fixpoint createConnectingStruts (this : HobermanSphere)
         (vertices : list Vector3) : HobermanSphere :=
  let connectionThreshold := 1.2 in
  match vertices with
  | [] => this
  | vi :: rest =>
      createConnectingStruts
        (fold_left
           (fun this vj =>
              let distance := Vector3.distanceTo vi vj in
              if Rltb distance connectionThreshold then
                createConnectionStrut this vi vj
              else this)
           rest this)
        rest
  end.

(** One iteration of the [forEach] of [updateConnectionStruts]. *)
Definition updateConnectionStrut (this : HobermanSphere) (child : Child)
  : Child :=
  match child with
  | LinkMesh _ _ => child   (* a link mesh has empty [userData] *)
  | OwnMesh m =>
      match Mesh.userData m with
      | None => child
      | Some d =>
          let point1 := Vector3.clone (point1 d) in
          let point2 := Vector3.clone (point2 d) in
          let currentRadius :=
            minRadius (config this)
            + (maxRadius (config this) - minRadius (config this))
              * expansionFactor this in
          let scaleFactor := currentRadius / maxRadius (config this) in
          let point1 := Vector3.multiplyScalar point1 scaleFactor in
          let point2 := Vector3.multiplyScalar point2 scaleFactor in
          let direction := Vector3.subVectors point2 point1 in
          let length := Vector3.length direction in
          let midpoint :=
            Vector3.multiplyScalar (Vector3.addVectors point1 point2)
                                   0.5 in
          let m := Mesh.set_position m midpoint in
          let m :=
            match parameters_height (Mesh.geometry m) with
            | Some h => Mesh.set_scale_y m (length / h)
            | None => m   (* not reached: every flagged mesh is a cylinder *)
            end in
          let axis := V3 0 1 0 in
          OwnMesh
            (Mesh.set_quaternion m
               (Quaternion.setFromUnitVectors
                  axis (Vector3.normalize direction)))
      end
  end.

Definition updateConnectionStruts (this : HobermanSphere)
  : HobermanSphere :=
  set_sphereGroup this
    (mkGroup (map (updateConnectionStrut this)
                  (children (sphereGroup this)))
             (rotation (sphereGroup this))).

Definition setExpansion (this : HobermanSphere) (factor : R)
  : HobermanSphere :=
  let this := set_expansionFactor this (Rmax 0 (Rmin 1 factor)) in
  let this :=
    set_scissorLinks this
      (map (fun link =>
              ScissorLink.setExpansion link (expansionFactor this))
           (scissorLinks this)) in
  updateConnectionStruts this.

Definition startAnimation (this : HobermanSphere) : HobermanSphere :=
  set_isAnimating this true.

Definition stopAnimation (this : HobermanSphere) : HobermanSphere :=
  set_isAnimating this false.

Definition toggleAnimation (this : HobermanSphere) : HobermanSphere :=
  set_isAnimating this (negb (isAnimating this)).

(** [update(deltaTime)]; [now] is the value [Date.now()] returns. *)
Definition update (this : HobermanSphere) (now deltaTime : R)
  : HobermanSphere :=
  if isAnimating this then
    let breathingCycle :=
      sin (now * 0.001 * animationSpeed this) * 0.5 + 0.5 in
    let this := setExpansion this breathingCycle in
    let r := rotation (sphereGroup this) in
    let this :=
      set_rotation this
        (mkEuler (ex r) (ey r + rotationSpeed this * deltaTime) (ez r)) in
    let this :=
      set_currentPitch this
        (currentPitch this + pitchSpeed this * deltaTime) in
    let r := rotation (sphereGroup this) in
    let this :=
      set_rotation this
        (mkEuler (sin (currentPitch this) * 0.4) (ey r) (ez r)) in
    let r := rotation (sphereGroup this) in
    set_rotation this
      (mkEuler (ex r) (ey r) (cos (currentPitch this * 0.7) * 0.3))
  else this.

Section Build.

(** [new THREE.IcosahedronGeometry(radius, detail).attributes
    .position.array]: the flat array of vertex coordinates the
    library generates. *)
Variable IcosahedronGeometry : R -> R -> list R.

Definition buildSphere (this : HobermanSphere)
  : Completion HobermanSphere :=
  let vertices := IcosahedronGeometry 1 (subdivisions (config this)) in
  let vertexPositions := vertexPositions vertices in
  let uniqueVertices := removeDuplicateVertices vertexPositions in
  this <-
    fold_left
      (fun acc vertex =>
         this <- acc ;; createRadialScissorLink this vertex)
      uniqueVertices (Normal this) ;;
  Normal (createConnectingStruts this uniqueVertices).

(** The outer [scene] only receives [sphereGroup]; it is not part of
    the object's own state. *)
Definition constructor (options : Options)
  : Completion HobermanSphere :=
  let config :=
    mkConfig (js_default (opt_minRadius options) 2)
             (js_default (opt_maxRadius options) 8)
             (js_default (opt_strutRadius options) 0.08)
             (js_default (opt_subdivisions options) 2)
             (js_default (opt_color options) 43775)
             (match opt_materialType options with
              | Some s => if String.eqb s "" then "metallic" else s
              | None => "metallic"
              end)%string in
  let sphereGroup := mkGroup [] (mkEuler 0 0 0) in
  let material :=
    createMaterial (cfg_color config) (materialType config) in
  buildSphere
    (mk config 0.5 false 0.3 0.2 0.1 0 [] sphereGroup material).

End Build.

Definition set_config (this : HobermanSphere) (c : Config) :=
  mk c (expansionFactor this) (isAnimating this) (animationSpeed this)
     (rotationSpeed this) (pitchSpeed this) (currentPitch this)
     (scissorLinks this) (sphereGroup this) (material this).

Definition set_material (this : HobermanSphere) (m : Material) :=
  mk (config this) (expansionFactor this) (isAnimating this)
     (animationSpeed this) (rotationSpeed this) (pitchSpeed this)
     (currentPitch this) (scissorLinks this) (sphereGroup this) m.

(** [m.color.setHex(c); m.emissive.setHex(c)] *)
Definition setHex (m : Material) (c : R) : Material :=
  MeshStandardMaterial c (metalness m) (roughness m) c (emissiveIntensity m).

(** Assign a material to a flagged mesh of the group; the other children
    are left alone. *)
Definition retexture (m : Material) (child : Child) : Child :=
  match child with
  | LinkMesh _ _ => child
  | OwnMesh o =>
      if isConnectionStrut (Mesh.userData o)
      then OwnMesh (Mesh.set_material o m)
      else child
  end.

(** [updateColor(color)] mutates the one material object in place.  The
    links, their meshes and the flagged meshes of the group all hold that
    object (the constructor and [updateMaterialType] hand it to each), so
    the mutated value replaces every copy the model keeps.  The render
    flag [needsUpdate] is not part of the model. *)
Definition updateColor (this : HobermanSphere) (color : R)
  : HobermanSphere :=
  let cfg := config this in
  let this :=
    set_config this
      (mkConfig (minRadius cfg) (maxRadius cfg) (strutRadius cfg)
                (subdivisions cfg) color (materialType cfg)) in
  let mutated := setHex (material this) color in
  let this :=
    set_scissorLinks this
      (map (fun link => ScissorLink.updateMaterial link mutated)
           (scissorLinks this)) in
  let this :=
    set_sphereGroup this
      (mkGroup (map (retexture mutated) (children (sphereGroup this)))
               (rotation (sphereGroup this))) in
  set_material this mutated.

(** [updateMaterialType(type)]; the second component is the disposal of
    the previous material, made after every reference is swapped. *)
Definition updateMaterialType (this : HobermanSphere) (type : string)
  : HobermanSphere * list Disposal :=
  let cfg := config this in
  let this :=
    set_config this
      (mkConfig (minRadius cfg) (maxRadius cfg) (strutRadius cfg)
                (subdivisions cfg) (cfg_color cfg) type) in
  let newMaterial := createMaterial (cfg_color (config this)) type in
  let this :=
    set_scissorLinks this
      (map (fun link => ScissorLink.updateMaterial link newMaterial)
           (scissorLinks this)) in
  let this :=
    set_sphereGroup this
      (mkGroup (map (retexture newMaterial) (children (sphereGroup this)))
               (rotation (sphereGroup this))) in
  let disposed := [DisposeMaterial (material this)] in
  (set_material this newMaterial, disposed).

Definition getGroup (this : HobermanSphere) : Group := sphereGroup this.

Definition LinkPart_eqb (a b : LinkPart) : bool :=
  match a, b with
  | Strut1, Strut1 | Strut2, Strut2 | Pivot, Pivot => true
  | _, _ => false
  end.

(** [group.remove(mesh)] for a mesh of a link: the first child that is
    this very mesh is taken out, if there is one. *)
Fixpoint removeLinkMesh (link : nat) (part : LinkPart)
         (cs : list Child) : list Child :=
  match cs with
  | [] => []
  | LinkMesh i p :: rest =>
      if Nat.eqb i link && LinkPart_eqb p part then rest
      else LinkMesh i p :: removeLinkMesh link part rest
  | c :: rest => c :: removeLinkMesh link part rest
  end.

(** The mesh a child stands for, looked up in the links when the child is
    a link mesh. *)
Definition meshOf (links : list ScissorLink.ScissorLink) (child : Child)
  : option Mesh.Mesh :=
  match child with
  | OwnMesh m => Some m
  | LinkMesh i part =>
      match nth_error links i with
      | Some l =>
          Some (match part with
                | Strut1 => ScissorLink.strut1 l
                | Strut2 => ScissorLink.strut2 l
                | Pivot => ScissorLink.pivot l
                end)
      | None => None
      end
  end.

(** [dispose()].  Every link is disposed, which takes its meshes out of
    the group; the list of links is emptied; the geometry and the material
    of each child still in the group are disposed; the group is taken out
    of the outer scene; the shared material is disposed.  The result is
    the state left behind and the disposals in call order. *)
Definition dispose (this : HobermanSphere)
  : HobermanSphere * list Disposal :=
  let links := scissorLinks this in
  let '(remaining, log) :=
    fold_left
      (fun (acc : list Child * list Disposal)
           (il : nat * ScissorLink.ScissorLink) =>
         let '(cs, log) := acc in
         let '(i, link) := il in
         let '(removed, disposed) := ScissorLink.dispose link in
         (fold_left (fun cs part => removeLinkMesh i part cs) removed cs,
          log ++ disposed))
      (combine (seq 0 (List.length links)) links)
      (children (sphereGroup this), []) in
  let this := set_scissorLinks this [] in
  let log :=
    log
    ++ flat_map
         (fun child =>
            match meshOf links child with
            | Some m =>
                [DisposeGeometry (Mesh.geometry m);
                 DisposeMaterial (Mesh.material m)]
            | None => []
            end)
         remaining in
  let this :=
    set_sphereGroup this (mkGroup remaining (rotation (sphereGroup this))) in
  (this, log ++ [DisposeMaterial (material this)]).

End HobermanSphere.

(** ** The public methods as commands *)

Inductive Command : Type :=
| SetExpansion (factor : R)
| UpdateColor (color : R)
| UpdateMaterialType (type : string)
| StartAnimation
| StopAnimation
| ToggleAnimation
| Update (now deltaTime : R).

Definition perform (this : HobermanSphere.HobermanSphere) (c : Command)
  : HobermanSphere.HobermanSphere :=
  match c with
  | SetExpansion f => HobermanSphere.setExpansion this f
  | UpdateColor color => HobermanSphere.updateColor this color
  | UpdateMaterialType type =>
      fst (HobermanSphere.updateMaterialType this type)
  | StartAnimation => HobermanSphere.startAnimation this
  | StopAnimation => HobermanSphere.stopAnimation this
  | ToggleAnimation => HobermanSphere.toggleAnimation this
  | Update now deltaTime => HobermanSphere.update this now deltaTime
  end.

Definition run (cs : list Command) (this : HobermanSphere.HobermanSphere)
  : HobermanSphere.HobermanSphere :=
  fold_left perform cs this.


(** ** controls.js *)

Record MouseState : Type := mkMouseState {
  isDragging : bool;
  previousX : R;
  previousY : R;
  currentX : R;
  currentY : R
}.

Record CameraRotation : Type := mkCameraRotation {
  theta : R;
  phi : R;
  radius : R
}.

(** The part of the toggle button the class writes. *)
Record Button : Type := mkButton {
  textContent : string;
  background : string
}.

(** The coordinates a mouse event or a touch point carries. *)
Record Pointer : Type := mkPointer {
  clientX : R;
  clientY : R
}.

Module Controls.

(** [camera] is [this.camera.position]; the orientation [lookAt(0,0,0)]
    gives the camera is not part of the model.  The assembly the controls
    drive is a separate object and is passed where a method uses it. *)
Record Controls : Type := mk {
  camera : Vector3;
  mouse : MouseState;
  cameraRotation : CameraRotation;
  isAnimating : bool;
  glowEnabled : bool;
  toggleBtn : Button
}.

Definition set_camera (this : Controls) (p : Vector3) :=
  mk p (mouse this) (cameraRotation this) (isAnimating this)
     (glowEnabled this) (toggleBtn this).

Definition set_mouse (this : Controls) (m : MouseState) :=
  mk (camera this) m (cameraRotation this) (isAnimating this)
     (glowEnabled this) (toggleBtn this).

Definition set_cameraRotation (this : Controls) (r : CameraRotation) :=
  mk (camera this) (mouse this) r (isAnimating this)
     (glowEnabled this) (toggleBtn this).

Definition updateCameraPosition (this : Controls) : Controls :=
  let r := cameraRotation this in
  set_camera this
    (V3 (radius r * sin (phi r) * cos (theta r))
        (radius r * cos (phi r))
        (radius r * sin (phi r) * sin (theta r))).

Definition initOrbitControls (this : Controls) : Controls :=
  let this := set_mouse this (mkMouseState false 0 0 0 0) in
  let this := set_cameraRotation this (mkCameraRotation 0 (Math_PI / 4) 25) in
  updateCameraPosition this.

(** The constructor, given where the camera is and what the toggle button
    shows when the controls are created; [initUIControls] only registers
    listeners. *)
Definition constructor (camera : Vector3) (toggleBtn : Button) : Controls :=
  initOrbitControls
    (mk camera (mkMouseState false 0 0 0 0) (mkCameraRotation 0 0 0)
        false false toggleBtn).

Definition onMouseDown (this : Controls) (event : Pointer) : Controls :=
  set_mouse this
    (mkMouseState true (clientX event) (clientY event)
                  (currentX (mouse this)) (currentY (mouse this))).

(** The body shared by [onMouseMove] and [onTouchMove] once the guard has
    passed. *)
Definition drag (this : Controls) (event : Pointer) : Controls :=
  let deltaX := clientX event - previousX (mouse this) in
  let deltaY := clientY event - previousY (mouse this) in
  let r := cameraRotation this in
  let theta' := theta r + deltaX * 0.01 in
  let phi' := phi r + deltaY * 0.01 in
  let phi' := Rmax 0.1 (Rmin (Math_PI - 0.1) phi') in
  let this :=
    set_cameraRotation this (mkCameraRotation theta' phi' (radius r)) in
  let this := updateCameraPosition this in
  set_mouse this
    (mkMouseState (isDragging (mouse this)) (clientX event) (clientY event)
                  (currentX (mouse this)) (currentY (mouse this))).

Definition onMouseMove (this : Controls) (event : Pointer) : Controls :=
  if negb (isDragging (mouse this)) then this else drag this event.

Definition onMouseUp (this : Controls) : Controls :=
  set_mouse this
    (mkMouseState false (previousX (mouse this)) (previousY (mouse this))
                  (currentX (mouse this)) (currentY (mouse this))).

Definition onMouseWheel (this : Controls) (deltaY : R) : Controls :=
  let zoomSpeed := 0.1 in
  let delta := if Rltb 0 deltaY then 1 else -1 in
  let r := cameraRotation this in
  let radius' := radius r + delta * zoomSpeed * radius r * 0.1 in
  let radius' := Rmax 12 (Rmin 60 radius') in
  updateCameraPosition
    (set_cameraRotation this (mkCameraRotation (theta r) (phi r) radius')).

Definition onTouchStart (this : Controls) (touches : list Pointer)
  : Controls :=
  match touches with
  | [t] =>
      set_mouse this
        (mkMouseState true (clientX t) (clientY t)
                      (currentX (mouse this)) (currentY (mouse this)))
  | _ => this
  end.

Definition onTouchMove (this : Controls) (touches : list Pointer)
  : Controls :=
  match touches with
  | [t] => if negb (isDragging (mouse this)) then this else drag this t
  | _ => this
  end.

Definition onTouchEnd (this : Controls) : Controls := onMouseUp this.

(** [toggleAnimation()], on the controls and the assembly they drive. *)
Definition toggleAnimation (this : Controls)
           (sphere : HobermanSphere.HobermanSphere)
  : Controls * HobermanSphere.HobermanSphere :=
  let this :=
    mk (camera this) (mouse this) (cameraRotation this)
       (negb (isAnimating this)) (glowEnabled this) (toggleBtn this) in
  if isAnimating this then
    (mk (camera this) (mouse this) (cameraRotation this)
        (isAnimating this) (glowEnabled this)
        (mkButton "Pause Animation"
                  "linear-gradient(135deg, #ff4444 0%, #cc0000 100%)"),
     HobermanSphere.startAnimation sphere)
  else
    (mk (camera this) (mouse this) (cameraRotation this)
        (isAnimating this) (glowEnabled this)
        (mkButton "Start Animation"
                  "linear-gradient(135deg, #00aaff 0%, #0077cc 100%)"),
     HobermanSphere.stopAnimation sphere).

Definition toggleGlow (this : Controls) (enabled : bool) : Controls :=
  mk (camera this) (mouse this) (cameraRotation this) (isAnimating this)
     enabled (toggleBtn this).

Definition isGlowEnabled (this : Controls) : bool := glowEnabled this.

Definition update (this : Controls) (deltaTime : R) : Controls := this.

End Controls.

(** The events the orbit listeners receive. *)
Inductive PointerEvent : Type :=
| MouseDown (event : Pointer)
| MouseMove (event : Pointer)
| MouseUp
| Wheel (deltaY : R)
| TouchStart (touches : list Pointer)
| TouchMove (touches : list Pointer)
| TouchEnd.

Definition dispatch (this : Controls.Controls) (e : PointerEvent)
  : Controls.Controls :=
  match e with
  | MouseDown event => Controls.onMouseDown this event
  | MouseMove event => Controls.onMouseMove this event
  | MouseUp => Controls.onMouseUp this
  | Wheel deltaY => Controls.onMouseWheel this deltaY
  | TouchStart touches => Controls.onTouchStart this touches
  | TouchMove touches => Controls.onTouchMove this touches
  | TouchEnd => Controls.onTouchEnd this
  end.

(** A move event, of the mouse or of a touch. *)
Definition isMove (e : PointerEvent) : bool :=
  match e with
  | MouseMove _ | TouchMove _ => true
  | _ => false
  end.

(** ** Measures used in the statements *)

(** A vector whose length lies between 1e-150 and 1e150.  Its squared
    length, between 1e-300 and 1e300, neither overflows nor underflows
    as a double, so that the doubles [normalize] computes are the reals
    of this model up to rounding. *)
Definition in_double_range (v : Vector3) : Prop :=
  1 / 10 ^ 150 <= Vector3.length v <= 10 ^ 150.

(** The camera sits where the spherical coordinates say, inside the
    allowed ranges. *)
Definition orbit_ok (c : Controls.Controls) : Prop :=
  let r := Controls.cameraRotation c in
  0.1 <= phi r <= Math_PI - 0.1
  /\ 12 <= radius r <= 60
  /\ Controls.camera c
     = V3 (radius r * sin (phi r) * cos (theta r))
          (radius r * cos (phi r))
          (radius r * sin (phi r) * sin (theta r)).


(** Every link, every link mesh and every flagged mesh of the group
    carries the assembly's material. *)
Definition shares_material (this : HobermanSphere.HobermanSphere) : Prop :=
  let m := HobermanSphere.material this in
  Forall (fun l =>
            ScissorLink.material l = m
            /\ Mesh.material (ScissorLink.strut1 l) = m
            /\ Mesh.material (ScissorLink.strut2 l) = m
            /\ Mesh.material (ScissorLink.pivot l) = m)
         (HobermanSphere.scissorLinks this)
  /\ Forall (fun c =>
               match c with
               | LinkMesh _ _ => True
               | OwnMesh o =>
                   isConnectionStrut (Mesh.userData o) = true ->
                   Mesh.material o = m
               end)
            (children (HobermanSphere.sphereGroup this)).

(** Every link carries the assembly's expansion factor, which lies in
    [[0,1]]. *)
Definition shares_factor (this : HobermanSphere.HobermanSphere) : Prop :=
  0 <= HobermanSphere.expansionFactor this <= 1
  /\ Forall (fun l =>
               ScissorLink.expansionFactor l
               = HobermanSphere.expansionFactor this)
            (HobermanSphere.scissorLinks this).

(** What is fixed when a link is built: where it sits and what its meshes
    are made of. *)
Definition linkSkeleton (l : ScissorLink.ScissorLink)
  : Vector3 * Vector3 * R * R * (Geometry * Geometry * Geometry) :=
  (ScissorLink.position l, ScissorLink.axis l,
   ScissorLink.strutLength l, ScissorLink.strutRadius l,
   (Mesh.geometry (ScissorLink.strut1 l),
    Mesh.geometry (ScissorLink.strut2 l),
    Mesh.geometry (ScissorLink.pivot l))).

(** What is fixed when a child enters the group: which link mesh it is, or
    its stored data and its geometry. *)
Definition childSkeleton (c : Child)
  : (nat * LinkPart) + (UserData * Geometry) :=
  match c with
  | LinkMesh i part => inl (i, part)
  | OwnMesh m => inr (Mesh.userData m, Mesh.geometry m)
  end.

Definition skeleton (this : HobermanSphere.HobermanSphere) :=
  (minRadius (HobermanSphere.config this),
   maxRadius (HobermanSphere.config this),
   strutRadius (HobermanSphere.config this),
   subdivisions (HobermanSphere.config this),
   map linkSkeleton (HobermanSphere.scissorLinks this),
   map childSkeleton (children (HobermanSphere.sphereGroup this))).

(** The disposals of a log that are disposals of a material. *)
Definition materialDisposals (log : list Disposal) : list Material :=
  flat_map (fun d => match d with
                     | DisposeMaterial m => [m]
                     | DisposeGeometry _ => []
                     end) log.

Definition geometryDisposals (log : list Disposal) : list Geometry :=
  flat_map (fun d => match d with
                     | DisposeGeometry g => [g]
                     | DisposeMaterial _ => []
                     end) log.


(** The squared length of a quaternion, the radicand of
    [Quaternion.length]. *)
Definition quaternion_norm (q : Quaternion) : R :=
  qx q * qx q + qy q * qy q + qz q * qz q + qw q * qw q.

(** [l1] is [l2] with some elements left out, the order kept. *)
Inductive subsequence {A : Type} : list A -> list A -> Prop :=
| subsequence_nil : subsequence [] []
| subsequence_keep (x : A) (l1 l2 : list A) :
    subsequence l1 l2 -> subsequence (x :: l1) (x :: l2)
| subsequence_drop (x : A) (l1 l2 : list A) :
    subsequence l1 l2 -> subsequence l1 (x :: l2).

(** The mesh [createConnectionStrut] builds for the points [p] and [q],
    given the configured strut radius and the shared material. *)
Definition connectionStrutMesh (strutRadius : R) (material : Material)
           (p q : Vector3) : Mesh.Mesh :=
  Mesh.mk
    (CylinderGeometry (strutRadius * 0.5) (strutRadius * 0.5)
                      (Vector3.length (Vector3.subVectors q p)) 6)
    material
    (Vector3.multiplyScalar (Vector3.addVectors p q) 0.5)
    (Quaternion.setFromUnitVectors
       (V3 0 1 0) (Vector3.normalize (Vector3.subVectors q p)))
    (V3 1 1 1)
    (Some (mkConnectionData p q)).

(** The three group children a link contributes, for the link stored at
    index [i] of [scissorLinks]. *)
Definition linkChildren (i : nat) : list Child :=
  [LinkMesh i Strut1; LinkMesh i Strut2; LinkMesh i Pivot].

(** The configuration the constructor derives from its options. *)
Definition configOf (options : Options) : Config :=
  mkConfig (js_default (opt_minRadius options) 2)
           (js_default (opt_maxRadius options) 8)
           (js_default (opt_strutRadius options) 0.08)
           (js_default (opt_subdivisions options) 2)
           (js_default (opt_color options) 43775)
           (match opt_materialType options with
            | Some s => if String.eqb s "" then "metallic" else s
            | None => "metallic"
            end)%string.

(** The link [createRadialScissorLink] builds for a vertex. *)
Definition built_for (cfg : Config) (mat : Material)
           (vertex : Vector3) (l : ScissorLink.ScissorLink) : Prop :=
  ScissorLink.constructor
    (Vector3.multiplyScalar (Vector3.normalize vertex) (maxRadius cfg * 0.5))
    (Vector3.normalize vertex) (maxRadius cfg * 0.5) (strutRadius cfg) mat
  = Normal (l, [Strut1; Strut2; Pivot]).

(** ** The calls the double loop makes *)

(** The pairs [(vertices[i], vertices[j])], [i < j], for which
    [createConnectingStruts] calls [createConnectionStrut], in call
    order. *)
Fixpoint connectedPairs (vertices : list Vector3)
  : list (Vector3 * Vector3) :=
  match vertices with
  | [] => []
  | vi :: rest =>
      map (pair vi)
          (filter (fun vj => Rltb (Vector3.distanceTo vi vj) 1.2) rest)
      ++ connectedPairs rest
  end.

(** A child that is a connection strut between [p] and [q]: a mesh of
    the group tagged with the two points, a cylinder as long as their
    distance, centred at their midpoint. *)
Definition connects (p q : Vector3) (c : Child) : Prop :=
  exists m,
    c = OwnMesh m
    /\ Mesh.userData m = Some (mkConnectionData p q)
    /\ parameters_height (Mesh.geometry m)
       = Some (Vector3.length (Vector3.subVectors q p))
    /\ Mesh.position m
       = Vector3.multiplyScalar (Vector3.addVectors p q) 0.5.

(** ** Sample values *)

Definition sample_material : Material :=
  HobermanSphere.createMaterial 43775 "metallic".

(** The link [new ScissorLink(scene, (0,2,0), (0,2,0), 4, 0.08, material)]. *)
Definition sample_link : ScissorLink.ScissorLink :=
  ScissorLink.updateGeometry
    (ScissorLink.mk (V3 0 2 0) (V3 0 1 0) 4 0.08 sample_material 0.5
       (Mesh.new (CylinderGeometry 0.08 0.08 4 8) sample_material)
       (Mesh.new (CylinderGeometry 0.08 0.08 4 8) sample_material)
       (Mesh.new (SphereGeometry (0.08 * 2) 16 16) sample_material)
       (mkEndpoints Vector3.zero Vector3.zero Vector3.zero Vector3.zero)).

(** [new HobermanSphere(scene)] called without options. *)
Definition sample_options : Options :=
  mkOptions None None None None None None.

(** An assembly state with one link and one connection strut. *)
Definition sample_sphere : HobermanSphere.HobermanSphere :=
  HobermanSphere.createConnectionStrut
    (HobermanSphere.mk
       (mkConfig 2 8 0.08 2 43775 "metallic") 0.5 false 0.3 0.2 0.1 0
       [sample_link]
       (mkGroup [LinkMesh 0 Strut1; LinkMesh 0 Strut2; LinkMesh 0 Pivot]
                (mkEuler 0 0 0))
       sample_material)
    (V3 1 0 0) (V3 0 1 0).

(** Position arrays of two vertices on the x axis, [d] apart. *)
Definition two_vertices (d : R) : R -> R -> list R :=
  fun _ _ => [1; 0; 0; 1 + d; 0; 0].

(** * Properties *)

(** ** The constant [Math.PI] *)

(** [Math.PI] falls short of the circle constant by about 1.2246e-16.
    The bounds come from the alternating series of Machin's formula
    [PI/4 = 2*atan(1/3) + atan(1/7)], cut after 21 and after 20 terms. *)
Lemma Math_PI_bounds :
  Math_PI + 1224 / 10 ^ 19 < PI < Math_PI + 1225 / 10 ^ 19.
Proof.
  pose proof (PI_2_3_7_ineq 10) as [L U].
  unfold Math_PI.
  cbv [sum_f_R0 tg_alt PI_2_3_7_tg Ratan_seq Nat.mul Nat.add] in L, U.
  rewrite ?S_INR in L, U. simpl INR in L, U.
  split; lra.
Qed.

Lemma Math_PI_range : 3 < Math_PI < PI.
Proof.
  pose proof Math_PI_bounds as [L _].
  split; [unfold Math_PI; lra | lra].
Qed.




(** On the angles [setExpansion] can produce, sine and cosine are not
    negative and the cosine does not increase. *)
Lemma openAngle_range (f : R) :
  0 <= f <= 1 -> 0 <= f * Math_PI / 2 < PI / 2.
Proof.
  intros Hf. pose proof Math_PI_range as [Hp1 Hp2]. split; nra.
Qed.


(** ** Clamping *)

Lemma clamp_range (f : R) : 0 <= Rmax 0 (Rmin 1 f) <= 1.
Proof.
  unfold Rmax, Rmin.
  destruct (Rle_dec 1 f); destruct (Rle_dec 0 _); lra.
Qed.

Lemma clamp_id (f : R) : 0 <= f <= 1 -> Rmax 0 (Rmin 1 f) = f.
Proof.
  intros [H0 H1]. unfold Rmax, Rmin.
  destruct (Rle_dec 1 f); destruct (Rle_dec 0 _); lra.
Qed.

Lemma clamp_below (f : R) : f <= 0 -> Rmax 0 (Rmin 1 f) = 0.
Proof.
  intros H. unfold Rmax, Rmin.
  destruct (Rle_dec 1 f); destruct (Rle_dec 0 _); lra.
Qed.

Lemma clamp_above (f : R) : 1 <= f -> Rmax 0 (Rmin 1 f) = 1.
Proof.
  intros H. unfold Rmax, Rmin.
  destruct (Rle_dec 1 f); destruct (Rle_dec 0 _); lra.
Qed.

(** ** Vector algebra *)

Lemma lengthSq_nonneg (v : Vector3) : 0 <= Vector3.lengthSq v.
Proof. unfold Vector3.lengthSq. nra. Qed.

Lemma length_nonneg (v : Vector3) : 0 <= Vector3.length v.
Proof. apply sqrt_pos. Qed.

Lemma length_sq (v : Vector3) :
  Vector3.length v * Vector3.length v = Vector3.lengthSq v.
Proof. apply sqrt_sqrt, lengthSq_nonneg. Qed.

Lemma length_zero_iff (v : Vector3) :
  Vector3.length v = 0 <-> v = Vector3.zero.
Proof.
  split.
  - intros H. apply sqrt_eq_0 in H; [| apply lengthSq_nonneg].
    destruct v as [a b c]. unfold Vector3.lengthSq in H. simpl in H.
    unfold Vector3.zero. f_equal; nra.
  - intros ->. unfold Vector3.length, Vector3.lengthSq. simpl.
    replace (0 * 0 + 0 * 0 + 0 * 0) with 0 by lra. apply sqrt_0.
Qed.

Lemma length_multiplyScalar (v : Vector3) (s : R) :
  Vector3.length (Vector3.multiplyScalar v s) = Rabs s * Vector3.length v.
Proof.
  unfold Vector3.length, Vector3.lengthSq, Vector3.multiplyScalar. simpl.
  rewrite <- sqrt_Rsqr_abs, <- sqrt_mult.
  - f_equal. unfold Rsqr. ring.
  - apply Rle_0_sqr.
  - apply (lengthSq_nonneg v).
Qed.


Lemma normalize_nonzero (v : Vector3) :
  Vector3.length v <> 0 ->
  Vector3.normalize v = Vector3.multiplyScalar v (1 / Vector3.length v).
Proof.
  intros H. unfold Vector3.normalize, Vector3.divideScalar, js_or.
  destruct (Req_dec_T (Vector3.length v) 0); [contradiction | reflexivity].
Qed.

Lemma normalize_unit (v : Vector3) :
  Vector3.length v <> 0 -> Vector3.length (Vector3.normalize v) = 1.
Proof.
  intros H. rewrite normalize_nonzero by assumption.
  rewrite length_multiplyScalar.
  pose proof (length_nonneg v) as Hn.
  assert (Hp : 0 < Vector3.length v) by lra.
  rewrite Rabs_pos_eq.
  - field. assumption.
  - apply Rlt_le. unfold Rdiv. rewrite Rmult_1_l.
    apply Rinv_0_lt_compat. assumption.
Qed.

Lemma normalize_zero : Vector3.normalize Vector3.zero = Vector3.zero.
Proof.
  unfold Vector3.normalize, Vector3.divideScalar, Vector3.multiplyScalar,
    Vector3.zero. simpl. f_equal; ring.
Qed.

(** For a unit axis the reference vector chosen by [updateGeometry] is
    never parallel to it, so the first perpendicular is a unit vector. *)
Lemma perpAxis1_unit (a : Vector3) :
  Vector3.length a = 1 ->
  Vector3.length (ScissorLink.perpAxis1_of a) = 1.
Proof.
  intros Ha.
  assert (Hsq : Vector3.lengthSq a = 1).
  { rewrite <- length_sq, Ha. ring. }
  unfold ScissorLink.perpAxis1_of. apply normalize_unit.
  intros Hz. apply length_zero_iff in Hz.
  unfold ScissorLink.perpAxis1_raw in Hz.
  destruct a as [a1 a2 a3]. unfold Vector3.lengthSq in Hsq. simpl in *.
  destruct (Rlt_dec (Rabs a2) 0.9) as [Hlt | Hge];
    unfold Vector3.crossVectors, Vector3.zero in Hz; simpl in Hz;
    injection Hz as H1 H2 H3.
  - assert (a1 = 0) by lra. assert (a3 = 0) by lra. subst.
    assert (Hy : a2 * a2 = 1) by lra.
    unfold Rabs in Hlt. destruct (Rcase_abs a2); nra.
  - assert (a2 = 0) by lra. subst. apply Hge.
    rewrite Rabs_R0. lra.
Qed.

(** ** ScissorLink *)

Lemma link_setExpansion_factor (l : ScissorLink.ScissorLink) (f : R) :
  ScissorLink.expansionFactor (ScissorLink.setExpansion l f)
  = Rmax 0 (Rmin 1 f).
Proof. reflexivity. Qed.

Lemma link_setExpansion_fixed (l : ScissorLink.ScissorLink) (f : R) :
  ScissorLink.position (ScissorLink.setExpansion l f)
  = ScissorLink.position l
  /\ ScissorLink.axis (ScissorLink.setExpansion l f) = ScissorLink.axis l
  /\ ScissorLink.strutLength (ScissorLink.setExpansion l f)
     = ScissorLink.strutLength l.
Proof. repeat split. Qed.

(** The derived geometry depends on the fixed parameters and the current
    factor only: a later [setExpansion] overwrites an earlier one. *)
Lemma link_setExpansion_overwrites (l : ScissorLink.ScissorLink) (f g : R) :
  ScissorLink.setExpansion (ScissorLink.setExpansion l f) g
  = ScissorLink.setExpansion l g.
Proof. reflexivity. Qed.





(** C2 (as amended): construction never fails, whatever the axis; the
    three meshes are created and handed to the scene.  The axis is stored
    as [axis.clone().normalize()]: an axis whose length lies between
    1e-150 and 1e150 is stored divided by its length, hence with length
    1; a zero-length axis is stored as the zero vector. *)
Theorem C2_constructor_never_fails
        (position axis : Vector3) (length radius : R) (material : Material) :
  exists l,
    ScissorLink.constructor position axis length radius material
    = Normal (l, [Strut1; Strut2; Pivot])
    /\ ScissorLink.axis l = Vector3.normalize axis
    /\ (in_double_range axis ->
        ScissorLink.axis l
        = Vector3.multiplyScalar axis (1 / Vector3.length axis)
        /\ Vector3.length (ScissorLink.axis l) = 1)
    /\ (Vector3.length axis = 0 -> ScissorLink.axis l = Vector3.zero).
Proof.
  eexists. split; [reflexivity |].
  change (ScissorLink.axis _) with (Vector3.normalize axis).
  split; [reflexivity |]. split.
  - intros [H _].
    assert (Hnz : Vector3.length axis <> 0).
    { assert (Hp : 0 < 1 / 10 ^ 150).
      { apply Rdiv_lt_0_compat; [lra | apply pow_lt; lra]. }
      lra. }
    split.
    + apply normalize_nonzero, Hnz.
    + apply normalize_unit, Hnz.
  - intros H. apply length_zero_iff in H. subst. apply normalize_zero.
Qed.

Lemma length_axis_y (c : R) : 0 <= c -> Vector3.length (V3 0 c 0) = c.
Proof.
  intros H. unfold Vector3.length, Vector3.lengthSq. simpl.
  replace (0 * 0 + c * c + 0 * 0) with (c * c) by ring.
  apply sqrt_square, H.
Qed.

Lemma in_double_range_axis_y (c : R) :
  1 <= c <= 10 -> in_double_range (V3 0 c 0).
Proof.
  intros Hc. unfold in_double_range. rewrite length_axis_y by lra.
  assert (Hp : 10 <= 10 ^ 150).
  { change 150%nat with (1 + 149)%nat. rewrite pow_add, pow_1.
    pose proof (pow_R1_Rle 10 149 ltac:(lra)) as H1. lra. }
  assert (Hq : 1 / 10 ^ 150 <= 1).
  { apply Rmult_le_reg_r with (10 ^ 150); [lra |].
    unfold Rdiv. rewrite Rmult_assoc, Rinv_l by lra. lra. }
  lra.
Qed.

Lemma C2_constructor_never_fails_witness :
  exists l,
    ScissorLink.constructor (V3 0 2 0) (V3 0 2 0) 4 0.08 sample_material
    = Normal (l, [Strut1; Strut2; Pivot])
    /\ Vector3.length (ScissorLink.axis l) = 1.
Proof.
  destruct (C2_constructor_never_fails
              (V3 0 2 0) (V3 0 2 0) 4 0.08 sample_material)
    as [l [Hc [_ [Hnz _]]]].
  exists l. split; [exact Hc |].
  apply Hnz. apply in_double_range_axis_y. lra.
Defined.

(** C2 as stated fails.  A zero-length axis is accepted: the link is
    built with its three meshes and the stored axis is the zero vector.
    And not every non-zero axis is stored normalised: over doubles
    [normalize] turns (1e200, 0, 0), whose squared length overflows, into
    the zero vector, and leaves (1e-200, 0, 0), whose squared length
    underflows to zero, as it is. *)
Lemma C2_counterexample :
  Vector3.length Vector3.zero = 0
  /\ (exists l,
         ScissorLink.constructor (V3 0 2 0) Vector3.zero 4 0.08
                                 sample_material
         = Normal (l, [Strut1; Strut2; Pivot])
         /\ ScissorLink.axis l = Vector3.zero
         /\ forall msg,
             ScissorLink.constructor (V3 0 2 0) Vector3.zero 4 0.08
                                     sample_material
             <> Throw msg)
  /\ Binary64.normalize Binary64.huge_axis = Binary64.zero
  /\ Binary64.normalize Binary64.tiny_axis = Binary64.tiny_axis.
Proof.
  split; [apply length_zero_iff; reflexivity |].
  split; [| split; vm_compute; reflexivity].
  eexists. split; [reflexivity |]. split.
  - change (ScissorLink.axis _) with (Vector3.normalize Vector3.zero).
    apply normalize_zero.
  - intros msg H. discriminate H.
Qed.

(** What [setExpansion] writes into the three meshes, for a factor in
    range. *)
Lemma setExpansion_strut_positions (l : ScissorLink.ScissorLink) (f : R) :
  0 <= f <= 1 ->
  let l' := ScissorLink.setExpansion l f in
  let offset := ScissorLink.strutLength l / 2 * sin (f * Math_PI / 2) in
  let perp1 := ScissorLink.perpAxis1_of (ScissorLink.axis l) in
  Mesh.position (ScissorLink.strut1 l')
  = Vector3.add (ScissorLink.position l)
                (Vector3.multiplyScalar perp1 offset)
  /\ Mesh.position (ScissorLink.strut2 l')
     = Vector3.add (ScissorLink.position l)
                   (Vector3.multiplyScalar perp1 (- offset))
  /\ Mesh.position (ScissorLink.pivot l') = ScissorLink.position l.
Proof.
  intros Hf.
  unfold ScissorLink.setExpansion, ScissorLink.updateGeometry,
    ScissorLink.updateEndpoints, Vector3.clone.
  cbn [ScissorLink.strut1 ScissorLink.strut2 ScissorLink.pivot
       ScissorLink.position ScissorLink.axis ScissorLink.strutLength
       ScissorLink.expansionFactor Mesh.rotateOnAxis Mesh.set_position
       Mesh.set_quaternion Mesh.position].
  rewrite clamp_id by assumption.
  repeat split.
Qed.

(** C3: [setExpansion] is a total function that stores its argument
    clamped to [[0,1]] and recomputes the derived geometry from the
    clamped value.  On a link the stored factor is [max(0, min(1, f))],
    and the strut centres and the current radius are those of the angle
    [max(0, min(1, f)) * Math.PI / 2]; on the assembly the stored factor
    is the same clamped value, every link is set to it and every child of
    the group is updated for it.  Hence, on a link and on the assembly
    alike, [setExpansion(f)] yields the state [setExpansion] yields for
    the clamped value: [setExpansion(-1)] the very state [setExpansion(0)]
    yields and [setExpansion(2)] the state [setExpansion(1)] yields. *)
Theorem C3_setExpansion_clamps
        (l : ScissorLink.ScissorLink) (s : HobermanSphere.HobermanSphere)
        (f : R) :
  let c := Rmax 0 (Rmin 1 f) in
  let l' := ScissorLink.setExpansion l f in
  let s' := HobermanSphere.setExpansion s f in
  let perp1 := ScissorLink.perpAxis1_of (ScissorLink.axis l) in
  let offset := ScissorLink.strutLength l / 2 * sin (c * Math_PI / 2) in
  ScissorLink.setExpansion l (-1) = ScissorLink.setExpansion l 0
  /\ ScissorLink.setExpansion l 2 = ScissorLink.setExpansion l 1
  /\ HobermanSphere.setExpansion s (-1) = HobermanSphere.setExpansion s 0
  /\ HobermanSphere.setExpansion s 2 = HobermanSphere.setExpansion s 1
  /\ 0 <= ScissorLink.expansionFactor l' <= 1
  /\ 0 <= HobermanSphere.expansionFactor s' <= 1
  /\ l' = ScissorLink.setExpansion l c
  /\ s' = HobermanSphere.setExpansion s c
  /\ ScissorLink.expansionFactor l' = c
  /\ (f <= 0 -> ScissorLink.expansionFactor l' = 0)
  /\ (0 <= f <= 1 -> ScissorLink.expansionFactor l' = f)
  /\ (1 <= f -> ScissorLink.expansionFactor l' = 1)
  /\ Mesh.position (ScissorLink.strut1 l')
     = Vector3.add (ScissorLink.position l)
                   (Vector3.multiplyScalar perp1 offset)
  /\ Mesh.position (ScissorLink.strut2 l')
     = Vector3.add (ScissorLink.position l)
                   (Vector3.multiplyScalar perp1 (- offset))
  /\ ScissorLink.getCurrentRadius l'
     = ScissorLink.strutLength l / 2 * cos (c * Math_PI / 2)
  /\ HobermanSphere.expansionFactor s' = c
  /\ HobermanSphere.scissorLinks s'
     = map (fun link => ScissorLink.setExpansion link c)
           (HobermanSphere.scissorLinks s)
  /\ children (HobermanSphere.sphereGroup s')
     = map (HobermanSphere.updateConnectionStrut
              (HobermanSphere.set_expansionFactor s c))
           (children (HobermanSphere.sphereGroup s)).
Proof.
  intros c l' s' perp1 offset.
  assert (Hm : Rmax 0 (Rmin 1 (-1)) = Rmax 0 (Rmin 1 0)).
  { rewrite !clamp_below by lra. reflexivity. }
  assert (Hp : Rmax 0 (Rmin 1 2) = Rmax 0 (Rmin 1 1)).
  { rewrite !clamp_above by lra. reflexivity. }
  assert (Hc : 0 <= c <= 1) by apply clamp_range.
  assert (Hi : Rmax 0 (Rmin 1 c) = c) by (apply clamp_id, Hc).
  assert (El : l' = ScissorLink.setExpansion l c).
  { subst l'. unfold ScissorLink.setExpansion. rewrite Hi. reflexivity. }
  assert (Es : s' = HobermanSphere.setExpansion s c).
  { subst s'. unfold HobermanSphere.setExpansion. rewrite Hi.
    reflexivity. }
  assert (Ef : ScissorLink.expansionFactor l' = c) by reflexivity.
  destruct (setExpansion_strut_positions l c Hc) as [P1 [P2 _]].
  rewrite <- El in P1, P2.
  split; [unfold ScissorLink.setExpansion; rewrite Hm; reflexivity |].
  split; [unfold ScissorLink.setExpansion; rewrite Hp; reflexivity |].
  split; [unfold HobermanSphere.setExpansion; rewrite Hm; reflexivity |].
  split; [unfold HobermanSphere.setExpansion; rewrite Hp; reflexivity |].
  split; [rewrite Ef; exact Hc |].
  split; [exact Hc |].
  split; [exact El |]. split; [exact Es |]. split; [exact Ef |].
  split; [intros Hf; rewrite Ef; apply clamp_below, Hf |].
  split; [intros Hf; rewrite Ef; apply clamp_id, Hf |].
  split; [intros Hf; rewrite Ef; apply clamp_above, Hf |].
  split; [exact P1 |]. split; [exact P2 |].
  repeat split.
Qed.

Lemma C3_setExpansion_clamps_witness :
  ScissorLink.expansionFactor (ScissorLink.setExpansion sample_link (-3))
  = 0
  /\ ScissorLink.expansionFactor
       (ScissorLink.setExpansion sample_link (1 / 4))
     = 1 / 4
  /\ ScissorLink.expansionFactor (ScissorLink.setExpansion sample_link 5)
     = 1.
Proof.
  split; [| split].
  - apply (C3_setExpansion_clamps sample_link sample_sphere (-3)). lra.
  - apply (C3_setExpansion_clamps sample_link sample_sphere (1 / 4)). lra.
  - apply (C3_setExpansion_clamps sample_link sample_sphere 5). lra.
Defined.



Lemma sample_link_axis : ScissorLink.axis sample_link = V3 0 1 0.
Proof. reflexivity. Qed.




(** C5: after [setExpansion], with [f] the expansion factor the link then
    holds (the argument itself when it lies in [[0,1]]),
    [openAngle = f*Math_PI/2], [offset = (strutLength/2)*sin(openAngle)] and
    [height = (strutLength/2)*cos(openAngle)], the four endpoints are
    [center +- axis*height +- perp1*offset], with signs (+,+) for top1,
    (+,-) for top2, (-,+) for bottom1 and (-,-) for bottom2. *)
Theorem C5_endpoints (l : ScissorLink.ScissorLink) (x : R) :
  let l' := ScissorLink.setExpansion l x in
  let f := ScissorLink.expansionFactor l' in
  let center := ScissorLink.position l' in
  let axis := ScissorLink.axis l' in
  let perp1 := ScissorLink.perpAxis1_of axis in
  let openAngle := f * Math_PI / 2 in
  let offset := ScissorLink.strutLength l' / 2 * sin openAngle in
  let height := ScissorLink.strutLength l' / 2 * cos openAngle in
  let at_ (h o : R) :=
    Vector3.add (Vector3.add center (Vector3.multiplyScalar axis h))
                (Vector3.multiplyScalar perp1 o) in
  top1 (ScissorLink.endpoints l') = at_ height offset
  /\ top2 (ScissorLink.endpoints l') = at_ height (- offset)
  /\ bottom1 (ScissorLink.endpoints l') = at_ (- height) offset
  /\ bottom2 (ScissorLink.endpoints l') = at_ (- height) (- offset)
  /\ (0 <= x <= 1 -> f = x).
Proof.
  intros l' f center axis perp1 openAngle offset height at_.
  subst l' f center axis perp1 openAngle offset height at_.
  unfold ScissorLink.setExpansion, ScissorLink.updateGeometry,
    ScissorLink.updateEndpoints.
  cbn [ScissorLink.endpoints ScissorLink.position ScissorLink.axis
       ScissorLink.strutLength ScissorLink.expansionFactor
       top1 top2 bottom1 bottom2].
  repeat split.
  apply clamp_id.
Qed.

Lemma C5_endpoints_witness :
  ScissorLink.expansionFactor (ScissorLink.setExpansion sample_link 1) = 1.
Proof.
  apply (C5_endpoints sample_link 1). lra.
Defined.

(** ** Building the assembly *)

Lemma Rltb_true (a b : R) : Rltb a b = true <-> a < b.
Proof.
  unfold Rltb. destruct (Rlt_dec a b); split; intros; try assumption;
    try reflexivity; try discriminate; contradiction.
Qed.

Lemma Rltb_false (a b : R) : Rltb a b = false <-> ~ a < b.
Proof.
  unfold Rltb. destruct (Rlt_dec a b); split; intros; try assumption;
    try reflexivity; try discriminate; contradiction.
Qed.

Lemma removeDuplicateVertices_two (u v : Vector3) :
  HobermanSphere.removeDuplicateVertices [u; v]
  = if Rltb (Vector3.distanceTo u v) 0.0001 then [u] else [u; v].
Proof.
  unfold HobermanSphere.removeDuplicateVertices. simpl.
  destruct (Rltb (Vector3.distanceTo u v) 0.0001); reflexivity.
Qed.

Lemma createRadialScissorLink_spec
      (this : HobermanSphere.HobermanSphere) (vertex : Vector3) :
  exists l,
    HobermanSphere.createRadialScissorLink this vertex
    = Normal
        (HobermanSphere.set_scissorLinks
           (HobermanSphere.group_add this
              (map (LinkMesh (List.length (HobermanSphere.scissorLinks this)))
                   [Strut1; Strut2; Pivot]))
           (HobermanSphere.scissorLinks this ++ [l]))
    /\ ScissorLink.expansionFactor l = 0.5.
Proof.
  eexists. split; reflexivity.
Qed.

(** What the [forEach] over the unique vertices leaves behind: one link
    per vertex, each at factor 0.5, and only link meshes in the group. *)
Lemma build_links (vs : list Vector3) :
  forall this : HobermanSphere.HobermanSphere,
  exists ls cs,
    fold_left
      (fun acc vertex =>
         this <- acc ;; HobermanSphere.createRadialScissorLink this vertex)
      vs (Normal this)
    = Normal
        (HobermanSphere.set_scissorLinks
           (HobermanSphere.group_add this cs)
           (HobermanSphere.scissorLinks this ++ ls))
    /\ List.length ls = List.length vs
    /\ Forall (fun l => ScissorLink.expansionFactor l = 0.5) ls
    /\ Forall (fun c => exists i part, c = LinkMesh i part) cs.
Proof.
  induction vs as [| v vs IH]; intros this.
  - exists [], []. simpl.
    destruct this as [c e a sp rs ps cp ls [ch rot] m].
    unfold HobermanSphere.set_scissorLinks, HobermanSphere.group_add,
      HobermanSphere.set_sphereGroup. simpl. rewrite !app_nil_r.
    repeat split; constructor.
  - simpl.
    destruct (createRadialScissorLink_spec this v) as [l [Hl Hef]].
    rewrite Hl.
    match goal with
    | |- context [fold_left _ vs (Normal ?t)] =>
        destruct (IH t) as [ls [cs [Hfold [Hlen [Hefs Hcs]]]]]
    end.
    exists (l :: ls).
    exists (map (LinkMesh (List.length (HobermanSphere.scissorLinks this)))
                [Strut1; Strut2; Pivot] ++ cs).
    split; [| split; [| split]].
    + rewrite Hfold.
      unfold HobermanSphere.set_scissorLinks, HobermanSphere.group_add,
        HobermanSphere.set_sphereGroup. simpl.
      rewrite <- !app_assoc. reflexivity.
    + simpl. rewrite Hlen. reflexivity.
    + constructor; [exact Hef | exact Hefs].
    + apply Forall_app. split; [| exact Hcs].
      repeat constructor; eexists; eexists; reflexivity.
Qed.

Lemma createConnectionStrut_spec
      (this : HobermanSphere.HobermanSphere) (p q : Vector3) :
  exists c,
    HobermanSphere.createConnectionStrut this p q
    = HobermanSphere.group_add this [c]
    /\ connects p q c.
Proof.
  eexists. split; [reflexivity |].
  eexists. repeat split.
Qed.

Lemma group_add_app (this : HobermanSphere.HobermanSphere)
      (a b : list Child) :
  HobermanSphere.group_add (HobermanSphere.group_add this a) b
  = HobermanSphere.group_add this (a ++ b).
Proof.
  unfold HobermanSphere.group_add, HobermanSphere.set_sphereGroup. simpl.
  rewrite app_assoc. reflexivity.
Qed.

Lemma group_add_nil (this : HobermanSphere.HobermanSphere) :
  HobermanSphere.group_add this [] = this.
Proof.
  destruct this as [c e a sp rs ps cp ls [ch rot] m].
  unfold HobermanSphere.group_add, HobermanSphere.set_sphereGroup. simpl.
  rewrite app_nil_r. reflexivity.
Qed.

Lemma inner_loop_spec (vi : Vector3) (rest : list Vector3) :
  forall this : HobermanSphere.HobermanSphere,
  exists conn,
    fold_left
      (fun this vj =>
         if Rltb (Vector3.distanceTo vi vj) 1.2
         then HobermanSphere.createConnectionStrut this vi vj
         else this)
      rest this
    = HobermanSphere.group_add this conn
    /\ Forall2 (fun c pq => connects (fst pq) (snd pq) c) conn
         (map (pair vi)
              (filter (fun vj => Rltb (Vector3.distanceTo vi vj) 1.2)
                      rest)).
Proof.
  induction rest as [| vj rest IH]; intros this.
  - exists []. simpl. split; [symmetry; apply group_add_nil | constructor].
  - simpl. destruct (Rltb (Vector3.distanceTo vi vj) 1.2).
    + destruct (createConnectionStrut_spec this vi vj) as [c [Hc Hconn]].
      rewrite Hc.
      destruct (IH (HobermanSphere.group_add this [c])) as [conn [Hf Hall]].
      exists (c :: conn). split.
      * rewrite Hf, group_add_app. reflexivity.
      * simpl. constructor; assumption.
    + apply IH.
Qed.

(** [createConnectingStruts] appends to the group exactly one connection
    strut per call listed by [connectedPairs], in that order. *)
Lemma createConnectingStruts_spec (vs : list Vector3) :
  forall this : HobermanSphere.HobermanSphere,
  exists conn,
    HobermanSphere.createConnectingStruts this vs
    = HobermanSphere.group_add this conn
    /\ Forall2 (fun c pq => connects (fst pq) (snd pq) c) conn
               (connectedPairs vs).
Proof.
  induction vs as [| vi rest IH]; intros this.
  - exists []. simpl. split; [symmetry; apply group_add_nil | constructor].
  - simpl.
    destruct (inner_loop_spec vi rest this) as [c1 [H1 A1]].
    rewrite H1.
    destruct (IH (HobermanSphere.group_add this c1)) as [c2 [H2 A2]].
    exists (c1 ++ c2). split.
    + rewrite H2, group_add_app. reflexivity.
    + apply Forall2_app; assumption.
Qed.

Lemma Forall2_In_r {A B : Type} (P : A -> B -> Prop)
      (la : list A) (lb : list B) (b : B) :
  Forall2 P la lb -> In b lb -> exists a, In a la /\ P a b.
Proof.
  induction 1 as [| a' b' la lb HP _ IH]; intros Hin.
  - contradiction.
  - destruct Hin as [-> | Hin].
    + exists a'. split; [left; reflexivity | exact HP].
    + destruct (IH Hin) as [a [Ha HPa]].
      exists a. split; [right; exact Ha | exact HPa].
Qed.

Lemma Forall2_In_l {A B : Type} (P : A -> B -> Prop)
      (la : list A) (lb : list B) (a : A) :
  Forall2 P la lb -> In a la -> exists b, In b lb /\ P a b.
Proof.
  induction 1 as [| a' b' la lb HP _ IH]; intros Hin.
  - contradiction.
  - destruct Hin as [-> | Hin].
    + exists b'. split; [left; reflexivity | exact HP].
    + destruct (IH Hin) as [b [Hb HPb]].
      exists b. split; [right; exact Hb | exact HPb].
Qed.

(** [connectedPairs] lists exactly the pairs at positions [i < j] whose
    distance is below 1.2. *)
Lemma connectedPairs_In (vs : list Vector3) (p q : Vector3) :
  In (p, q) (connectedPairs vs)
  <-> exists i j,
      (i < j)%nat /\ nth_error vs i = Some p /\ nth_error vs j = Some q
      /\ Vector3.distanceTo p q < 1.2.
Proof.
  induction vs as [| vi rest IH].
  - simpl. split; [contradiction |].
    intros [i [j [_ [H _]]]]. destruct i; discriminate H.
  - simpl. rewrite in_app_iff, in_map_iff. split.
    + intros [[vj [Heq Hin]] | Hin].
      * injection Heq as <- <-.
        apply filter_In in Hin. destruct Hin as [Hin Hlt].
        apply Rltb_true in Hlt.
        apply In_nth_error in Hin. destruct Hin as [k Hk].
        exists 0%nat, (S k). repeat split; [lia | exact Hk | exact Hlt].
      * apply IH in Hin. destruct Hin as [i [j [Hij [Hi [Hj Hlt]]]]].
        exists (S i), (S j).
        repeat split; [lia | exact Hi | exact Hj | exact Hlt].
    + intros [i [j [Hij [Hi [Hj Hlt]]]]].
      destruct j as [| j]; [lia |]. simpl in Hj.
      destruct i as [| i].
      * simpl in Hi. injection Hi as <-. left.
        exists q. split; [reflexivity |].
        apply filter_In. split.
        -- eapply nth_error_In. exact Hj.
        -- apply Rltb_true. exact Hlt.
      * simpl in Hi. right. apply IH.
        exists i, j. repeat split; [lia | exact Hi | exact Hj | exact Hlt].
Qed.

(** Construction succeeds, and the built assembly has one link per
    unique vertex followed by the connection struts. *)
Lemma constructor_spec
      (IcosahedronGeometry : R -> R -> list R) (options : Options) :
  exists s links conn,
    HobermanSphere.constructor IcosahedronGeometry options = Normal s
    /\ HobermanSphere.expansionFactor s = 0.5
    /\ HobermanSphere.isAnimating s = false
    /\ List.length (HobermanSphere.scissorLinks s)
       = List.length
           (HobermanSphere.removeDuplicateVertices
              (HobermanSphere.vertexPositions
                 (IcosahedronGeometry
                    1 (js_default (opt_subdivisions options) 2))))
    /\ Forall (fun l => ScissorLink.expansionFactor l = 0.5)
              (HobermanSphere.scissorLinks s)
    /\ children (HobermanSphere.sphereGroup s) = links ++ conn
    /\ Forall (fun c => exists i part, c = LinkMesh i part) links
    /\ Forall2 (fun c pq => connects (fst pq) (snd pq) c) conn
               (connectedPairs
                  (HobermanSphere.removeDuplicateVertices
                     (HobermanSphere.vertexPositions
                        (IcosahedronGeometry
                           1 (js_default (opt_subdivisions options) 2))))).
Proof.
  unfold HobermanSphere.constructor, HobermanSphere.buildSphere.
  cbn [subdivisions HobermanSphere.config].
  set (uniqueVertices :=
         HobermanSphere.removeDuplicateVertices
           (HobermanSphere.vertexPositions
              (IcosahedronGeometry
                 1 (js_default (opt_subdivisions options) 2)))).
  match goal with
  | |- context [fold_left _ uniqueVertices (Normal ?t)] =>
      destruct (build_links uniqueVertices t)
        as [ls [cs [Hfold [Hlen [Hef Hcs]]]]];
      rewrite Hfold
  end.
  cbn [bind].
  match goal with
  | |- context [HobermanSphere.createConnectingStruts ?t uniqueVertices] =>
      destruct (createConnectingStruts_spec uniqueVertices t)
        as [conn [Hconn Hall]];
      rewrite Hconn
  end.
  eexists. exists cs, conn.
  split; [reflexivity |].
  repeat split; try assumption.
Qed.

Lemma two_vertices_distance (d : R) :
  0 <= d -> Vector3.distanceTo (V3 1 0 0) (V3 (1 + d) 0 0) = d.
Proof.
  intros H. unfold Vector3.distanceTo, Vector3.distanceToSquared. simpl.
  replace ((1 - (1 + d)) * (1 - (1 + d)) + (0 - 0) * (0 - 0)
           + (0 - 0) * (0 - 0)) with (d * d) by ring.
  apply sqrt_square, H.
Qed.

Lemma two_vertices_positions (d a b : R) :
  HobermanSphere.vertexPositions (two_vertices d a b)
  = [V3 1 0 0; V3 (1 + d) 0 0].
Proof. reflexivity. Qed.

Lemma two_vertices_unique (d a b : R) :
  0.0001 <= d ->
  HobermanSphere.removeDuplicateVertices
    (HobermanSphere.vertexPositions (two_vertices d a b))
  = [V3 1 0 0; V3 (1 + d) 0 0].
Proof.
  intros H. rewrite two_vertices_positions, removeDuplicateVertices_two.
  rewrite two_vertices_distance by lra.
  replace (Rltb d 0.0001) with false; [reflexivity |].
  symmetry. apply Rltb_false. lra.
Qed.

(** C6: vertices are deduplicated by Euclidean distance against the
    threshold 0.0001.  When the geometry supplies two vertices, the built
    assembly has one ScissorLink if they are closer than 0.0001 (so at
    distance 0.00005) and two otherwise (so at distance 0.0002). *)
Theorem C6_vertex_dedup
        (IcosahedronGeometry : R -> R -> list R) (options : Options)
        (u v : Vector3)
        (Hin : HobermanSphere.vertexPositions
                 (IcosahedronGeometry
                    1 (js_default (opt_subdivisions options) 2))
               = [u; v]) :
  exists s,
    HobermanSphere.constructor IcosahedronGeometry options = Normal s
    /\ (Vector3.distanceTo u v < 0.0001 ->
        List.length (HobermanSphere.scissorLinks s) = 1%nat)
    /\ (~ Vector3.distanceTo u v < 0.0001 ->
        List.length (HobermanSphere.scissorLinks s) = 2%nat)
    /\ (Vector3.distanceTo u v = 0.00005 ->
        List.length (HobermanSphere.scissorLinks s) = 1%nat)
    /\ (Vector3.distanceTo u v = 0.0002 ->
        List.length (HobermanSphere.scissorLinks s) = 2%nat).
Proof.
  destruct (constructor_spec IcosahedronGeometry options)
    as [s [links [conn [Hs [_ [_ [Hlen _]]]]]]].
  rewrite Hin, removeDuplicateVertices_two in Hlen.
  exists s. split; [exact Hs |].
  assert (Hlt : Vector3.distanceTo u v < 0.0001 ->
                List.length (HobermanSphere.scissorLinks s) = 1%nat).
  { intros H. apply Rltb_true in H. rewrite H in Hlen. exact Hlen. }
  assert (Hge : ~ Vector3.distanceTo u v < 0.0001 ->
                List.length (HobermanSphere.scissorLinks s) = 2%nat).
  { intros H. apply Rltb_false in H. rewrite H in Hlen. exact Hlen. }
  repeat split; try assumption.
  - intros H. apply Hlt. lra.
  - intros H. apply Hge. lra.
Qed.

Lemma C6_vertex_dedup_witness :
  (exists s,
      HobermanSphere.constructor (two_vertices 0.00005) sample_options
      = Normal s
      /\ List.length (HobermanSphere.scissorLinks s) = 1%nat)
  /\ (exists s,
         HobermanSphere.constructor (two_vertices 0.0002) sample_options
         = Normal s
         /\ List.length (HobermanSphere.scissorLinks s) = 2%nat).
Proof.
  split.
  - destruct (C6_vertex_dedup (two_vertices 0.00005) sample_options
                (V3 1 0 0) (V3 (1 + 0.00005) 0 0) eq_refl)
      as [s [Hs [_ [_ [H _]]]]].
    exists s. split; [exact Hs |].
    apply H. apply two_vertices_distance. lra.
  - destruct (C6_vertex_dedup (two_vertices 0.0002) sample_options
                (V3 1 0 0) (V3 (1 + 0.0002) 0 0) eq_refl)
      as [s [Hs [_ [_ [_ H]]]]].
    exists s. split; [exact Hs |].
    apply H. apply two_vertices_distance. lra.
Defined.

(** C7: in the built assembly, for every pair of unique vertices at
    positions [i < j], the group holds a connection strut between them (a
    cylinder tagged with the two vertices, as long as their distance and
    centred at their midpoint) exactly when their Euclidean distance is
    below 1.2; so a pair at distance 1.19 has one and a pair at distance
    1.21 has none. *)
Theorem C7_adjacency
        (IcosahedronGeometry : R -> R -> list R) (options : Options) :
  exists s,
    HobermanSphere.constructor IcosahedronGeometry options = Normal s
    /\ forall (i j : nat) (p q : Vector3),
        (i < j)%nat ->
        nth_error
          (HobermanSphere.removeDuplicateVertices
             (HobermanSphere.vertexPositions
                (IcosahedronGeometry
                   1 (js_default (opt_subdivisions options) 2)))) i
        = Some p ->
        nth_error
          (HobermanSphere.removeDuplicateVertices
             (HobermanSphere.vertexPositions
                (IcosahedronGeometry
                   1 (js_default (opt_subdivisions options) 2)))) j
        = Some q ->
        let strut_exists :=
          exists c,
            In c (children (HobermanSphere.sphereGroup s))
            /\ connects p q c in
        (Vector3.distanceTo p q < 1.2 <-> strut_exists)
        /\ (Vector3.distanceTo p q = 1.19 -> strut_exists)
        /\ (Vector3.distanceTo p q = 1.21 -> ~ strut_exists).
Proof.
  destruct (constructor_spec IcosahedronGeometry options)
    as [s [links [conn [Hs [_ [_ [_ [_ [Hch [Hlinks Hconn]]]]]]]]]].
  exists s. split; [exact Hs |].
  intros i j p q Hij Hi Hj strut_exists.
  assert (Hiff : Vector3.distanceTo p q < 1.2 <-> strut_exists).
  { subst strut_exists. split.
    - intros Hlt.
      assert (Hpq : In (p, q)
                       (connectedPairs
                          (HobermanSphere.removeDuplicateVertices
                             (HobermanSphere.vertexPositions
                                (IcosahedronGeometry
                                   1 (js_default
                                        (opt_subdivisions options) 2)))))).
      { apply connectedPairs_In. exists i, j. repeat split; assumption. }
      destruct (Forall2_In_r _ _ _ _ Hconn Hpq) as [c [Hc Hcon]].
      exists c. split; [| exact Hcon].
      rewrite Hch. apply in_or_app. right. exact Hc.
    - intros [c [Hc [m [-> [Hm _]]]]].
      rewrite Hch in Hc. apply in_app_or in Hc. destruct Hc as [Hc | Hc].
      + rewrite Forall_forall in Hlinks.
        destruct (Hlinks _ Hc) as [k [part Hk]]. discriminate Hk.
      + destruct (Forall2_In_l _ _ _ _ Hconn Hc) as [[p' q'] [Hpq Hcon]].
        destruct Hcon as [m' [Hm' [Hd _]]]. injection Hm' as <-.
        simpl in Hd. rewrite Hm in Hd. injection Hd as <- <-.
        apply connectedPairs_In in Hpq.
        destruct Hpq as [_ [_ [_ [_ [_ Hlt]]]]]. exact Hlt. }
  split; [exact Hiff | split].
  - intros H. apply Hiff. lra.
  - intros H Hex. apply Hiff in Hex. lra.
Qed.

Lemma C7_adjacency_witness :
  (exists s,
      HobermanSphere.constructor (two_vertices 1.19) sample_options
      = Normal s
      /\ exists c,
          In c (children (HobermanSphere.sphereGroup s))
          /\ connects (V3 1 0 0) (V3 (1 + 1.19) 0 0) c)
  /\ (exists s,
         HobermanSphere.constructor (two_vertices 1.21) sample_options
         = Normal s
         /\ ~ exists c,
               In c (children (HobermanSphere.sphereGroup s))
               /\ connects (V3 1 0 0) (V3 (1 + 1.21) 0 0) c).
Proof.
  split.
  - destruct (C7_adjacency (two_vertices 1.19) sample_options)
      as [s [Hs H]].
    exists s. split; [exact Hs |].
    apply (H 0%nat 1%nat (V3 1 0 0) (V3 (1 + 1.19) 0 0)).
    + lia.
    + rewrite two_vertices_unique by lra. reflexivity.
    + rewrite two_vertices_unique by lra. reflexivity.
    + apply two_vertices_distance. lra.
  - destruct (C7_adjacency (two_vertices 1.21) sample_options)
      as [s [Hs H]].
    exists s. split; [exact Hs |].
    apply (H 0%nat 1%nat (V3 1 0 0) (V3 (1 + 1.21) 0 0)).
    + lia.
    + rewrite two_vertices_unique by lra. reflexivity.
    + rewrite two_vertices_unique by lra. reflexivity.
    + apply two_vertices_distance. lra.
Defined.

(** ** Driving the assembly *)

Lemma sphere_setExpansion_factor
      (s : HobermanSphere.HobermanSphere) (f : R) :
  HobermanSphere.expansionFactor (HobermanSphere.setExpansion s f)
  = Rmax 0 (Rmin 1 f).
Proof. reflexivity. Qed.

Lemma sphere_setExpansion_links
      (s : HobermanSphere.HobermanSphere) (f : R) :
  HobermanSphere.scissorLinks (HobermanSphere.setExpansion s f)
  = map (fun link => ScissorLink.setExpansion link (Rmax 0 (Rmin 1 f)))
        (HobermanSphere.scissorLinks s).
Proof. reflexivity. Qed.

Lemma sphere_setExpansion_children
      (s : HobermanSphere.HobermanSphere) (f : R) :
  children (HobermanSphere.sphereGroup (HobermanSphere.setExpansion s f))
  = map (HobermanSphere.updateConnectionStrut
           (HobermanSphere.set_expansionFactor s (Rmax 0 (Rmin 1 f))))
        (children (HobermanSphere.sphereGroup s)).
Proof. reflexivity. Qed.

(** A connection strut is recomputed from its stored endpoints, the
    configuration and the factor alone. *)
Lemma updateConnectionStrut_overwrites
      (s1 s2 s3 : HobermanSphere.HobermanSphere) (c : Child) :
  HobermanSphere.config s2 = HobermanSphere.config s3 ->
  HobermanSphere.expansionFactor s2 = HobermanSphere.expansionFactor s3 ->
  HobermanSphere.updateConnectionStrut
    s2 (HobermanSphere.updateConnectionStrut s1 c)
  = HobermanSphere.updateConnectionStrut s3 c.
Proof.
  intros Hc He.
  destruct c as [i part | [g mt pos qt sc [d |]]]; try reflexivity.
  destruct g; simpl; rewrite Hc, He; reflexivity.
Qed.

Lemma sphere_setExpansion_overwrites
      (s : HobermanSphere.HobermanSphere) (f g : R) :
  HobermanSphere.setExpansion (HobermanSphere.setExpansion s f) g
  = HobermanSphere.setExpansion s g.
Proof.
  unfold HobermanSphere.setExpansion, HobermanSphere.updateConnectionStruts,
    HobermanSphere.set_scissorLinks, HobermanSphere.set_sphereGroup,
    HobermanSphere.set_expansionFactor.
  cbn [HobermanSphere.config HobermanSphere.expansionFactor
       HobermanSphere.isAnimating HobermanSphere.animationSpeed
       HobermanSphere.rotationSpeed HobermanSphere.pitchSpeed
       HobermanSphere.currentPitch HobermanSphere.scissorLinks
       HobermanSphere.sphereGroup HobermanSphere.material
       children rotation].
  rewrite !map_map. f_equal.
  f_equal. apply map_ext. intros c.
  apply updateConnectionStrut_overwrites; reflexivity.
Qed.

(** C8: assembly [setExpansion] replaces each connection strut (a flagged
    cylinder mesh of the group, with stored endpoints [point1], [point2])
    by one whose position is the midpoint of the two endpoints scaled by
    [(minRadius + (maxRadius - minRadius)*f) / maxRadius], with [f] the
    factor the assembly then holds (the argument itself when it lies in
    [[0,1]]), whose [scale.y] is the distance between the scaled endpoints
    over the cylinder height, and whose orientation turns the y axis onto
    their normalised difference; the stored endpoints are kept.  Hence
    [setExpansion(0); setExpansion(1); setExpansion(0)] ends in the very
    state the first [setExpansion(0)] produced, every strut midpoint and
    length included. *)
Theorem C8_connection_struts
        (s : HobermanSphere.HobermanSphere) (x : R)
        (n : nat) (m : Mesh.Mesh) (d : ConnectionData) (h : R)
        (Hn : nth_error (children (HobermanSphere.sphereGroup s)) n
              = Some (OwnMesh m))
        (Hd : Mesh.userData m = Some d)
        (Hh : parameters_height (Mesh.geometry m) = Some h) :
  let s' := HobermanSphere.setExpansion s x in
  let f := HobermanSphere.expansionFactor s' in
  let cfg := HobermanSphere.config s' in
  let k := (minRadius cfg + (maxRadius cfg - minRadius cfg) * f)
           / maxRadius cfg in
  let p1 := Vector3.multiplyScalar (point1 d) k in
  let p2 := Vector3.multiplyScalar (point2 d) k in
  (exists m',
      nth_error (children (HobermanSphere.sphereGroup s')) n
      = Some (OwnMesh m')
      /\ Mesh.position m'
         = Vector3.multiplyScalar (Vector3.addVectors p1 p2) 0.5
      /\ vy (Mesh.scale m')
         = Vector3.length (Vector3.subVectors p2 p1) / h
      /\ Mesh.quaternion m'
         = Quaternion.setFromUnitVectors
             (V3 0 1 0) (Vector3.normalize (Vector3.subVectors p2 p1))
      /\ Mesh.userData m' = Some d
      /\ Mesh.geometry m' = Mesh.geometry m)
  /\ (0 <= x <= 1 -> f = x)
  /\ cfg = HobermanSphere.config s
  /\ HobermanSphere.setExpansion
       (HobermanSphere.setExpansion (HobermanSphere.setExpansion s 0) 1) 0
     = HobermanSphere.setExpansion s 0
  /\ children
       (HobermanSphere.sphereGroup
          (HobermanSphere.setExpansion
             (HobermanSphere.setExpansion
                (HobermanSphere.setExpansion s 0) 1) 0))
     = children
         (HobermanSphere.sphereGroup (HobermanSphere.setExpansion s 0)).
Proof.
  intros s' f cfg k p1 p2.
  split; [| split; [| split; [| split]]].
  - subst s'. rewrite sphere_setExpansion_children, nth_error_map, Hn.
    destruct m as [g mt pos qt sc ud]. simpl in Hd, Hh. subst ud.
    cbn [option_map HobermanSphere.updateConnectionStrut Mesh.userData
         Mesh.geometry Mesh.set_position].
    rewrite Hh.
    eexists. split; [reflexivity |].
    repeat split.
  - apply clamp_id.
  - reflexivity.
  - rewrite !sphere_setExpansion_overwrites. reflexivity.
  - rewrite !sphere_setExpansion_overwrites. reflexivity.
Qed.

Lemma C8_connection_struts_witness :
  exists m',
    nth_error
      (children
         (HobermanSphere.sphereGroup
            (HobermanSphere.setExpansion sample_sphere (1 / 2)))) 3
    = Some (OwnMesh m')
    /\ Mesh.position m'
       = Vector3.multiplyScalar
           (Vector3.addVectors
              (Vector3.multiplyScalar
                 (V3 1 0 0)
                 ((2 + (8 - 2) * Rmax 0 (Rmin 1 (1 / 2))) / 8))
              (Vector3.multiplyScalar
                 (V3 0 1 0)
                 ((2 + (8 - 2) * Rmax 0 (Rmin 1 (1 / 2))) / 8)))
           0.5
    /\ Rmax 0 (Rmin 1 (1 / 2)) = 1 / 2.
Proof.
  destruct (C8_connection_struts
              sample_sphere (1 / 2) 3
              (Mesh.mk
                 (CylinderGeometry
                    (0.08 * 0.5) (0.08 * 0.5)
                    (Vector3.length
                       (Vector3.subVectors (V3 0 1 0) (V3 1 0 0))) 6)
                 sample_material
                 (Vector3.multiplyScalar
                    (Vector3.addVectors (V3 1 0 0) (V3 0 1 0)) 0.5)
                 (Quaternion.setFromUnitVectors
                    (V3 0 1 0)
                    (Vector3.normalize
                       (Vector3.subVectors (V3 0 1 0) (V3 1 0 0))))
                 (V3 1 1 1)
                 (Some (mkConnectionData (V3 1 0 0) (V3 0 1 0))))
              (mkConnectionData (V3 1 0 0) (V3 0 1 0))
              (Vector3.length (Vector3.subVectors (V3 0 1 0) (V3 1 0 0)))
              eq_refl eq_refl eq_refl)
    as [[m' [Hn [Hp _]]] [Hf _]].
  exists m'. split; [exact Hn | split; [exact Hp |]].
  apply Hf. lra.
Defined.

(** C9: while the assembly is paused ([isAnimating] false), any sequence
    of [update] calls, whatever the clock and the frame times, returns the
    state unchanged: the expansion factor, the rotation of the group and
    the pitch phase keep their last values.  Pausing itself changes none
    of them. *)
Theorem C9_paused_frozen
        (s : HobermanSphere.HobermanSphere) (ticks : list (R * R))
        (Hp : HobermanSphere.isAnimating s = false) :
  let s' :=
    fold_left (fun s t => HobermanSphere.update s (fst t) (snd t))
              ticks s in
  s' = s
  /\ HobermanSphere.expansionFactor s' = HobermanSphere.expansionFactor s
  /\ rotation (HobermanSphere.sphereGroup s')
     = rotation (HobermanSphere.sphereGroup s)
  /\ HobermanSphere.currentPitch s' = HobermanSphere.currentPitch s
  /\ (forall s0,
         HobermanSphere.isAnimating (HobermanSphere.stopAnimation s0)
         = false
         /\ HobermanSphere.expansionFactor (HobermanSphere.stopAnimation s0)
            = HobermanSphere.expansionFactor s0
         /\ HobermanSphere.sphereGroup (HobermanSphere.stopAnimation s0)
            = HobermanSphere.sphereGroup s0
         /\ HobermanSphere.currentPitch (HobermanSphere.stopAnimation s0)
            = HobermanSphere.currentPitch s0
         /\ HobermanSphere.scissorLinks (HobermanSphere.stopAnimation s0)
            = HobermanSphere.scissorLinks s0).
Proof.
  intros s'.
  assert (E : s' = s).
  { subst s'. induction ticks as [| t ticks IH]; [reflexivity |].
    simpl. unfold HobermanSphere.update at 2. rewrite Hp. exact IH. }
  rewrite E. repeat split.
Qed.

Lemma C9_paused_frozen_witness :
  fold_left (fun s t => HobermanSphere.update s (fst t) (snd t))
            [(1000, 0.016); (1016, 0.016)] sample_sphere
  = sample_sphere.
Proof.
  apply (C9_paused_frozen sample_sphere [(1000, 0.016); (1016, 0.016)]).
  reflexivity.
Defined.

Lemma links_follow_setExpansion
      (s : HobermanSphere.HobermanSphere) (f : R) :
  Forall
    (fun l =>
       ScissorLink.expansionFactor l
       = HobermanSphere.expansionFactor (HobermanSphere.setExpansion s f))
    (HobermanSphere.scissorLinks (HobermanSphere.setExpansion s f)).
Proof.
  rewrite sphere_setExpansion_links, sphere_setExpansion_factor.
  apply Forall_forall. intros l Hl.
  apply in_map_iff in Hl. destruct Hl as [l0 [<- _]].
  rewrite link_setExpansion_factor.
  apply clamp_id, clamp_range.
Qed.




(** * Further properties of the linkage code *)

(** ** The frame and the endpoints of a link *)

Lemma lengthSq_one_iff (v : Vector3) :
  Vector3.length v = 1 <-> Vector3.lengthSq v = 1.
Proof.
  split; intros H.
  - rewrite <- length_sq, H. ring.
  - unfold Vector3.length. rewrite H. apply sqrt_1.
Qed.

Lemma dot_cross_left (a b : Vector3) :
  Vector3.dot a (Vector3.crossVectors a b) = 0.
Proof. unfold Vector3.dot, Vector3.crossVectors. simpl. ring. Qed.

Lemma dot_cross_right (a b : Vector3) :
  Vector3.dot b (Vector3.crossVectors a b) = 0.
Proof. unfold Vector3.dot, Vector3.crossVectors. simpl. ring. Qed.

Lemma dot_multiplyScalar_right (a b : Vector3) (s : R) :
  Vector3.dot a (Vector3.multiplyScalar b s) = Vector3.dot a b * s.
Proof. unfold Vector3.dot, Vector3.multiplyScalar. simpl. ring. Qed.

Lemma dot_multiplyScalar_left (a b : Vector3) (s : R) :
  Vector3.dot (Vector3.multiplyScalar a s) b = Vector3.dot a b * s.
Proof. unfold Vector3.dot, Vector3.multiplyScalar. simpl. ring. Qed.

(** Lagrange's identity. *)
Lemma lengthSq_cross (a b : Vector3) :
  Vector3.lengthSq (Vector3.crossVectors a b)
  = Vector3.lengthSq a * Vector3.lengthSq b
    - Vector3.dot a b * Vector3.dot a b.
Proof.
  unfold Vector3.lengthSq, Vector3.dot, Vector3.crossVectors. simpl. ring.
Qed.

(** [normalize] scales by a number, whatever the vector. *)
Lemma normalize_scales (v : Vector3) :
  exists s, Vector3.normalize v = Vector3.multiplyScalar v s.
Proof.
  unfold Vector3.normalize, Vector3.divideScalar. eexists. reflexivity.
Qed.

Lemma perpAxis1_orthogonal (a : Vector3) :
  Vector3.dot a (ScissorLink.perpAxis1_of a) = 0.
Proof.
  unfold ScissorLink.perpAxis1_of.
  destruct (normalize_scales (ScissorLink.perpAxis1_raw a)) as [s ->].
  rewrite dot_multiplyScalar_right.
  unfold ScissorLink.perpAxis1_raw.
  destruct (Rlt_dec _ _); rewrite dot_cross_left; ring.
Qed.


(** The whole frame of a unit axis. *)
Lemma frame_of_unit_axis (a : Vector3) :
  Vector3.length a = 1 ->
  Vector3.length (ScissorLink.perpAxis1_of a) = 1
  /\ Vector3.length (ScissorLink.perpAxis2_of a) = 1
  /\ Vector3.dot a (ScissorLink.perpAxis1_of a) = 0
  /\ Vector3.dot a (ScissorLink.perpAxis2_of a) = 0
  /\ Vector3.dot (ScissorLink.perpAxis1_of a) (ScissorLink.perpAxis2_of a)
     = 0.
Proof.
  intros Ha.
  set (perp1 := ScissorLink.perpAxis1_of a).
  set (perp2 := ScissorLink.perpAxis2_of a).
  assert (H1 : Vector3.length perp1 = 1) by (apply perpAxis1_unit, Ha).
  assert (Ho : Vector3.dot a perp1 = 0) by apply perpAxis1_orthogonal.
  assert (Hc : Vector3.lengthSq (Vector3.crossVectors a perp1) = 1).
  { rewrite lengthSq_cross, Ho.
    apply lengthSq_one_iff in Ha. apply lengthSq_one_iff in H1.
    rewrite Ha, H1. ring. }
  assert (H2 : Vector3.length perp2 = 1).
  { subst perp2. unfold ScissorLink.perpAxis2_of. fold perp1.
    apply normalize_unit.
    apply lengthSq_one_iff in Hc. rewrite Hc. apply R1_neq_R0. }
  repeat split; try assumption.
  - subst perp2. unfold ScissorLink.perpAxis2_of. fold perp1.
    destruct (normalize_scales (Vector3.crossVectors a perp1)) as [s ->].
    rewrite dot_multiplyScalar_right, dot_cross_left. ring.
  - subst perp2. unfold ScissorLink.perpAxis2_of. fold perp1.
    destruct (normalize_scales (Vector3.crossVectors a perp1)) as [s ->].
    rewrite dot_multiplyScalar_right, dot_cross_right. ring.
Qed.

(** X1: for a link whose stored axis is a unit vector, the two
    perpendiculars [updateGeometry] builds are unit vectors, each
    orthogonal to the axis, and orthogonal to each other. *)
Theorem X1_perpendicular_frame
        (a : Vector3) (Ha : Vector3.length a = 1) :
  let perp1 := ScissorLink.perpAxis1_of a in
  let perp2 := ScissorLink.perpAxis2_of a in
  Vector3.length perp1 = 1
  /\ Vector3.length perp2 = 1
  /\ Vector3.dot a perp1 = 0
  /\ Vector3.dot a perp2 = 0
  /\ Vector3.dot perp1 perp2 = 0.
Proof.
  intros perp1 perp2. apply frame_of_unit_axis, Ha.
Qed.

Lemma X1_perpendicular_frame_witness :
  Vector3.dot (V3 0 1 0) (ScissorLink.perpAxis2_of (V3 0 1 0)) = 0.
Proof.
  apply (X1_perpendicular_frame (V3 0 1 0)).
  apply length_axis_y. lra.
Defined.

Lemma distanceToSquared_nonneg (a b : Vector3) :
  0 <= Vector3.distanceToSquared a b.
Proof.
  unfold Vector3.distanceToSquared. cbv zeta.
  pose proof (Rle_0_sqr (vx a - vx b)) as Hx.
  pose proof (Rle_0_sqr (vy a - vy b)) as Hy.
  pose proof (Rle_0_sqr (vz a - vz b)) as Hz.
  unfold Rsqr in Hx, Hy, Hz. lra.
Qed.

(** The squared distance between [c + a*h + p*o] and [c - a*h - p*o]. *)
Lemma diagonal_squared (c a p : Vector3) (h o : R) :
  Vector3.distanceToSquared
    (Vector3.add (Vector3.add c (Vector3.multiplyScalar a h))
                 (Vector3.multiplyScalar p o))
    (Vector3.add (Vector3.add c (Vector3.multiplyScalar a (- h)))
                 (Vector3.multiplyScalar p (- o)))
  = 4 * (h * h * Vector3.lengthSq a + o * o * Vector3.lengthSq p
         + 2 * h * o * Vector3.dot a p).
Proof.
  unfold Vector3.distanceToSquared, Vector3.add, Vector3.multiplyScalar,
    Vector3.lengthSq, Vector3.dot. simpl. ring.
Qed.


Lemma sin_cos_squares (x : R) : sin x * sin x + cos x * cos x = 1.
Proof. pose proof (sin2_cos2 x) as H. unfold Rsqr in H. exact H. Qed.


(** The endpoints [setExpansion] leaves, in terms of the stored factor. *)
Lemma setExpansion_endpoints (l : ScissorLink.ScissorLink) (x : R) :
  let l' := ScissorLink.setExpansion l x in
  let c := ScissorLink.position l in
  let a := ScissorLink.axis l in
  let p := ScissorLink.perpAxis1_of a in
  let t := Rmax 0 (Rmin 1 x) * Math_PI / 2 in
  let o := ScissorLink.strutLength l / 2 * sin t in
  let h := ScissorLink.strutLength l / 2 * cos t in
  let at_ (h o : R) :=
    Vector3.add (Vector3.add c (Vector3.multiplyScalar a h))
                (Vector3.multiplyScalar p o) in
  top1 (ScissorLink.endpoints l') = at_ h o
  /\ top2 (ScissorLink.endpoints l') = at_ h (- o)
  /\ bottom1 (ScissorLink.endpoints l') = at_ (- h) o
  /\ bottom2 (ScissorLink.endpoints l') = at_ (- h) (- o)
  /\ Mesh.position (ScissorLink.strut1 l')
     = Vector3.add c (Vector3.multiplyScalar p o)
  /\ Mesh.position (ScissorLink.strut2 l')
     = Vector3.add c (Vector3.multiplyScalar p (- o))
  /\ Mesh.position (ScissorLink.pivot l') = c.
Proof. repeat split. Qed.



(** X3: after any [setExpansion], whatever the link, the centre of strut 1
    is the midpoint of top1 and bottom1 and the centre of strut 2 the
    midpoint of top2 and bottom2; the pivot marker sits at the link's
    centre, which is the midpoint of both diagonals. *)
Theorem X3_centres_are_midpoints (l : ScissorLink.ScissorLink) (x : R) :
  let l' := ScissorLink.setExpansion l x in
  let e := ScissorLink.endpoints l' in
  let mid (u v : Vector3) :=
    Vector3.multiplyScalar (Vector3.addVectors u v) 0.5 in
  mid (top1 e) (bottom1 e) = Mesh.position (ScissorLink.strut1 l')
  /\ mid (top2 e) (bottom2 e) = Mesh.position (ScissorLink.strut2 l')
  /\ mid (top1 e) (bottom2 e) = Mesh.position (ScissorLink.pivot l')
  /\ mid (top2 e) (bottom1 e) = Mesh.position (ScissorLink.pivot l')
  /\ Mesh.position (ScissorLink.pivot l') = ScissorLink.position l.
Proof.
  intros l' e mid.
  destruct (setExpansion_endpoints l x)
    as [E1 [E2 [E3 [E4 [S1 [S2 Pv]]]]]].
  fold l' e in E1, E2, E3, E4, S1, S2, Pv.
  rewrite E1, E2, E3, E4, S1, S2, Pv.
  subst mid. cbv beta.
  generalize (ScissorLink.strutLength l / 2
              * sin (Rmax 0 (Rmin 1 x) * Math_PI / 2)).
  generalize (ScissorLink.strutLength l / 2
              * cos (Rmax 0 (Rmin 1 x) * Math_PI / 2)).
  generalize (ScissorLink.perpAxis1_of (ScissorLink.axis l)).
  generalize (ScissorLink.axis l). generalize (ScissorLink.position l).
  intros [c1 c2 c3] [a1 a2 a3] [p1 p2 p3] h o.
  unfold Vector3.addVectors, Vector3.add, Vector3.multiplyScalar. simpl.
  repeat split; f_equal; lra.
Qed.

(** X4: for a link whose strut length is not negative, after any
    [setExpansion] the current radius lies between 0 and [strutLength/2],
    and the midpoints of the top and of the bottom endpoints are the centre
    moved along the axis by plus and minus the current radius. *)
Theorem X4_radius_is_axial_extent
        (l : ScissorLink.ScissorLink) (x : R)
        (HL : 0 <= ScissorLink.strutLength l) :
  let l' := ScissorLink.setExpansion l x in
  let e := ScissorLink.endpoints l' in
  let r := ScissorLink.getCurrentRadius l' in
  let mid (u v : Vector3) :=
    Vector3.multiplyScalar (Vector3.addVectors u v) 0.5 in
  0 <= r <= ScissorLink.strutLength l / 2
  /\ mid (top1 e) (top2 e)
     = Vector3.add (ScissorLink.position l)
                   (Vector3.multiplyScalar (ScissorLink.axis l) r)
  /\ mid (bottom1 e) (bottom2 e)
     = Vector3.add (ScissorLink.position l)
                   (Vector3.multiplyScalar (ScissorLink.axis l) (- r)).
Proof.
  intros l' e r mid.
  destruct (setExpansion_endpoints l x) as [E1 [E2 [E3 [E4 _]]]].
  fold l' e in E1, E2, E3, E4.
  assert (Hr : r = ScissorLink.strutLength l / 2
                   * cos (Rmax 0 (Rmin 1 x) * Math_PI / 2)) by reflexivity.
  split; [| split].
  - rewrite Hr.
    pose proof (clamp_range x) as Hc.
    pose proof (openAngle_range _ Hc) as Hr'.
    set (t := Rmax 0 (Rmin 1 x) * Math_PI / 2) in *.
    assert (Hcos : 0 <= cos t <= 1).
    { split; [apply cos_ge_0; lra |].
      destruct (COS_bound t); assumption. }
    nra.
  - rewrite E1, E2, Hr. subst mid. cbv beta.
    generalize (ScissorLink.strutLength l / 2
                * sin (Rmax 0 (Rmin 1 x) * Math_PI / 2)).
    generalize (ScissorLink.strutLength l / 2
                * cos (Rmax 0 (Rmin 1 x) * Math_PI / 2)).
    generalize (ScissorLink.perpAxis1_of (ScissorLink.axis l)).
    generalize (ScissorLink.axis l). generalize (ScissorLink.position l).
    intros [c1 c2 c3] [a1 a2 a3] [p1 p2 p3] h o.
    unfold Vector3.addVectors, Vector3.add, Vector3.multiplyScalar. simpl.
    f_equal; lra.
  - rewrite E3, E4, Hr. subst mid. cbv beta.
    generalize (ScissorLink.strutLength l / 2
                * sin (Rmax 0 (Rmin 1 x) * Math_PI / 2)).
    generalize (ScissorLink.strutLength l / 2
                * cos (Rmax 0 (Rmin 1 x) * Math_PI / 2)).
    generalize (ScissorLink.perpAxis1_of (ScissorLink.axis l)).
    generalize (ScissorLink.axis l). generalize (ScissorLink.position l).
    intros [c1 c2 c3] [a1 a2 a3] [p1 p2 p3] h o.
    unfold Vector3.addVectors, Vector3.add, Vector3.multiplyScalar. simpl.
    f_equal; lra.
Qed.

Lemma X4_radius_is_axial_extent_witness :
  0 <= ScissorLink.getCurrentRadius (ScissorLink.setExpansion sample_link 7)
  <= 4 / 2.
Proof.
  apply (X4_radius_is_axial_extent sample_link 7). simpl. lra.
Defined.

(** ** Orientation of the struts *)

Lemma quaternion_norm_nonneg (q : Quaternion) : 0 <= quaternion_norm q.
Proof.
  unfold quaternion_norm.
  pose proof (Rle_0_sqr (qx q)) as H1. pose proof (Rle_0_sqr (qy q)) as H2.
  pose proof (Rle_0_sqr (qz q)) as H3. pose proof (Rle_0_sqr (qw q)) as H4.
  unfold Rsqr in *. lra.
Qed.

Lemma quaternion_length_norm (q : Quaternion) :
  Quaternion.length q = sqrt (quaternion_norm q).
Proof. reflexivity. Qed.

Lemma quaternion_normalize_unit (q : Quaternion) :
  Quaternion.length (Quaternion.normalize q) = 1.
Proof.
  unfold Quaternion.normalize. cbv zeta.
  destruct (Req_dec_T (Quaternion.length q) 0) as [Hz | Hnz].
  - unfold Quaternion.length, Quaternion.identity. simpl.
    replace (0 * 0 + 0 * 0 + 0 * 0 + 1 * 1) with 1 by ring. apply sqrt_1.
  - rewrite quaternion_length_norm in *.
    pose proof (quaternion_norm_nonneg q) as Hn.
    pose proof (sqrt_pos (quaternion_norm q)) as Hs.
    pose proof (sqrt_sqrt _ Hn) as Hss.
    unfold quaternion_norm at 1. simpl.
    apply sqrt_lem_1; [| lra |].
    + pose proof (quaternion_norm_nonneg
                    (Quat (qx q * (1 / sqrt (quaternion_norm q)))
                          (qy q * (1 / sqrt (quaternion_norm q)))
                          (qz q * (1 / sqrt (quaternion_norm q)))
                          (qw q * (1 / sqrt (quaternion_norm q))))) as H.
      exact H.
    + set (s := sqrt (quaternion_norm q)) in *.
      unfold quaternion_norm in Hss. simpl.
      field_simplify_eq; [| exact Hnz].
      change (Quaternion.length q) with s. nra.
Qed.

Lemma setFromUnitVectors_unit (vFrom vTo : Vector3) :
  Quaternion.length (Quaternion.setFromUnitVectors vFrom vTo) = 1.
Proof.
  unfold Quaternion.setFromUnitVectors. cbv zeta.
  destruct (Rlt_dec _ _); [destruct (Rlt_dec _ _) |];
    apply quaternion_normalize_unit.
Qed.

Lemma quaternion_multiply_norm (a b : Quaternion) :
  quaternion_norm (Quaternion.multiply a b)
  = quaternion_norm a * quaternion_norm b.
Proof. unfold quaternion_norm, Quaternion.multiply. simpl. ring. Qed.

Lemma quaternion_multiply_length (a b : Quaternion) :
  Quaternion.length (Quaternion.multiply a b)
  = Quaternion.length a * Quaternion.length b.
Proof.
  rewrite !quaternion_length_norm, quaternion_multiply_norm.
  apply sqrt_mult; apply quaternion_norm_nonneg.
Qed.

Lemma setFromAxisAngle_unit (axis : Vector3) (angle : R) :
  Vector3.length axis = 1 ->
  Quaternion.length (Quaternion.setFromAxisAngle axis angle) = 1.
Proof.
  intros Ha. apply lengthSq_one_iff in Ha. unfold Vector3.lengthSq in Ha.
  unfold Quaternion.length, Quaternion.setFromAxisAngle. simpl.
  pose proof (sin_cos_squares (angle / 2)) as Hsc.
  rewrite <- sqrt_1. f_equal.
  set (s := sin (angle / 2)) in *. set (c := cos (angle / 2)) in *.
  transitivity ((vx axis * vx axis + vy axis * vy axis + vz axis * vz axis)
                * (s * s) + c * c); [ring |].
  rewrite Ha. lra.
Qed.

(** X5: for a link whose stored axis is a unit vector, the orientations
    [updateGeometry] writes into the two struts are unit quaternions, for
    every factor. *)
Theorem X5_strut_orientation_unit
        (l : ScissorLink.ScissorLink) (x : R)
        (Haxis : Vector3.length (ScissorLink.axis l) = 1) :
  let l' := ScissorLink.setExpansion l x in
  Quaternion.length (Mesh.quaternion (ScissorLink.strut1 l')) = 1
  /\ Quaternion.length (Mesh.quaternion (ScissorLink.strut2 l')) = 1.
Proof.
  intros l'.
  destruct (frame_of_unit_axis (ScissorLink.axis l) Haxis) as [_ [H2 _]].
  split.
  - change (Mesh.quaternion (ScissorLink.strut1 l'))
      with (Quaternion.multiply
              (Quaternion.setFromUnitVectors (V3 0 1 0) (ScissorLink.axis l))
              (Quaternion.setFromAxisAngle
                 (ScissorLink.perpAxis2_of (ScissorLink.axis l))
                 (Rmax 0 (Rmin 1 x) * Math_PI / 2))).
    rewrite quaternion_multiply_length, setFromUnitVectors_unit,
      setFromAxisAngle_unit by exact H2.
    ring.
  - change (Mesh.quaternion (ScissorLink.strut2 l'))
      with (Quaternion.multiply
              (Quaternion.setFromUnitVectors (V3 0 1 0) (ScissorLink.axis l))
              (Quaternion.setFromAxisAngle
                 (ScissorLink.perpAxis2_of (ScissorLink.axis l))
                 (- (Rmax 0 (Rmin 1 x) * Math_PI / 2)))).
    rewrite quaternion_multiply_length, setFromUnitVectors_unit,
      setFromAxisAngle_unit by exact H2.
    ring.
Qed.

Lemma X5_strut_orientation_unit_witness :
  Quaternion.length
    (Mesh.quaternion
       (ScissorLink.strut1 (ScissorLink.setExpansion sample_link (1 / 3))))
  = 1.
Proof.
  apply (X5_strut_orientation_unit sample_link (1 / 3)).
  rewrite sample_link_axis. apply length_axis_y. lra.
Defined.

(** [updateMaterial] touches materials only.  It keeps the factor, the
    endpoints and every mesh position, orientation and geometry, sets the
    material of the link and of its three meshes, and commutes with
    [setExpansion]. *)
Lemma updateMaterial_keeps_geometry
        (l : ScissorLink.ScissorLink) (m : Material) (x : R) :
  let l' := ScissorLink.updateMaterial l m in
  let retextured (part : ScissorLink.ScissorLink -> Mesh.Mesh) :=
    Mesh.material (part l') = m
    /\ Mesh.position (part l') = Mesh.position (part l)
    /\ Mesh.quaternion (part l') = Mesh.quaternion (part l)
    /\ Mesh.geometry (part l') = Mesh.geometry (part l)
    /\ Mesh.scale (part l') = Mesh.scale (part l) in
  ScissorLink.updateMaterial (ScissorLink.setExpansion l x) m
  = ScissorLink.setExpansion l' x
  /\ ScissorLink.expansionFactor l' = ScissorLink.expansionFactor l
  /\ ScissorLink.endpoints l' = ScissorLink.endpoints l
  /\ ScissorLink.getCurrentRadius l' = ScissorLink.getCurrentRadius l
  /\ retextured ScissorLink.strut1
  /\ retextured ScissorLink.strut2
  /\ retextured ScissorLink.pivot
  /\ ScissorLink.material l' = m.
Proof.
  intros l' retextured. subst retextured. cbv beta.
  repeat split.
Qed.

(** ** Vertex deduplication *)

Lemma distanceTo_sym (a b : Vector3) :
  Vector3.distanceTo a b = Vector3.distanceTo b a.
Proof.
  unfold Vector3.distanceTo, Vector3.distanceToSquared. cbv zeta.
  f_equal. ring.
Qed.

Lemma distanceTo_self (a : Vector3) : Vector3.distanceTo a a = 0.
Proof.
  unfold Vector3.distanceTo, Vector3.distanceToSquared. cbv zeta.
  rewrite <- sqrt_0. f_equal. ring.
Qed.

(** One iteration of the [forEach] of [removeDuplicateVertices]. *)
Lemma removeDuplicateVertices_fold (vs : list Vector3) :
  HobermanSphere.removeDuplicateVertices vs
  = fold_left
      (fun unique v =>
         if negb (existsb (fun u => Rltb (Vector3.distanceTo u v) 0.0001)
                          unique)
         then unique ++ [v] else unique)
      vs [].
Proof. reflexivity. Qed.

Lemma existsb_near_false (unique : list Vector3) (v : Vector3) :
  existsb (fun u => Rltb (Vector3.distanceTo u v) 0.0001) unique = false
  <-> Forall (fun u => ~ Vector3.distanceTo u v < 0.0001) unique.
Proof.
  induction unique as [| u us IH]; simpl.
  - split; [constructor | reflexivity].
  - rewrite orb_false_iff, IH, Rltb_false. split.
    + intros [H1 H2]. constructor; assumption.
    + intros H. inversion H; subst. split; assumption.
Qed.

Lemma existsb_near_true (unique : list Vector3) (v : Vector3) :
  existsb (fun u => Rltb (Vector3.distanceTo u v) 0.0001) unique = true
  <-> exists u, In u unique /\ Vector3.distanceTo u v < 0.0001.
Proof.
  rewrite existsb_exists. split; intros [u [Hin H]]; exists u;
    (split; [exact Hin | apply Rltb_true; exact H]).
Qed.

Lemma ForallOrdPairs_snoc {A : Type} (P : A -> A -> Prop)
      (l : list A) (x : A) :
  ForallOrdPairs P l -> Forall (fun u => P u x) l ->
  ForallOrdPairs P (l ++ [x]).
Proof.
  induction 1 as [| a l Ha Hl IH]; intros Hx; simpl.
  - constructor; constructor.
  - inversion Hx; subst. constructor.
    + apply Forall_app. split; [exact Ha | constructor; [assumption |]].
      constructor.
    + apply IH. assumption.
Qed.

Lemma ForallOrdPairs_app_head {A : Type} (P : A -> A -> Prop)
      (l r : list A) (x : A) :
  ForallOrdPairs P (l ++ x :: r) -> Forall (fun u => P u x) l.
Proof.
  induction l as [| a l IH]; simpl; intros H.
  - constructor.
  - inversion H as [| ? ? Ha Hl]; subst. constructor.
    + rewrite Forall_forall in Ha. apply Ha.
      apply in_or_app. right. left. reflexivity.
    + apply IH. exact Hl.
Qed.

Section Dedup.

Let far (u v : Vector3) : Prop := ~ Vector3.distanceTo u v < 0.0001.

Let step (unique : list Vector3) (v : Vector3) : list Vector3 :=
  if negb (existsb (fun u => Rltb (Vector3.distanceTo u v) 0.0001) unique)
  then unique ++ [v] else unique.

Lemma dedup_step_cases (unique : list Vector3) (v : Vector3) :
  (step unique v = unique ++ [v] /\ Forall (fun u => far u v) unique)
  \/ (step unique v = unique
      /\ exists u, In u unique /\ Vector3.distanceTo u v < 0.0001).
Proof.
  unfold step.
  destruct (existsb _ unique) eqn:E; simpl.
  - right. split; [reflexivity |]. apply existsb_near_true. exact E.
  - left. split; [reflexivity |]. apply existsb_near_false. exact E.
Qed.

Lemma dedup_separated (vs : list Vector3) :
  forall acc,
    ForallOrdPairs far acc ->
    ForallOrdPairs far (fold_left step vs acc).
Proof.
  induction vs as [| v vs IH]; intros acc Hacc; simpl; [exact Hacc |].
  apply IH.
  destruct (dedup_step_cases acc v) as [[-> Hf] | [-> _]].
  - apply ForallOrdPairs_snoc; assumption.
  - exact Hacc.
Qed.

Lemma dedup_extends (vs : list Vector3) :
  forall acc, exists more, fold_left step vs acc = acc ++ more.
Proof.
  induction vs as [| v vs IH]; intros acc; simpl.
  - exists []. rewrite app_nil_r. reflexivity.
  - destruct (IH (step acc v)) as [more Hm]. rewrite Hm.
    destruct (dedup_step_cases acc v) as [[-> _] | [-> _]].
    + exists (v :: more). rewrite <- app_assoc. reflexivity.
    + exists more. reflexivity.
Qed.

Lemma dedup_covers (vs : list Vector3) :
  forall acc v,
    In v vs ->
    exists u,
      In u (fold_left step vs acc) /\ Vector3.distanceTo u v < 0.0001.
Proof.
  induction vs as [| w vs IH]; intros acc v Hin; [contradiction |].
  simpl. destruct Hin as [-> | Hin]; [| apply IH; exact Hin].
  destruct (dedup_extends vs (step acc v)) as [more Hm]. rewrite Hm.
  destruct (dedup_step_cases acc v) as [[-> _] | [-> [u [Hu Hd]]]].
  - exists v. split.
    + apply in_or_app. left. apply in_or_app. right. left. reflexivity.
    + rewrite distanceTo_self. lra.
  - exists u. split; [apply in_or_app; left; exact Hu | exact Hd].
Qed.

Lemma subsequence_snoc_keep {A : Type} (l1 l2 : list A) (x : A) :
  subsequence l1 l2 -> subsequence (l1 ++ [x]) (l2 ++ [x]).
Proof.
  induction 1; simpl.
  - apply subsequence_keep, subsequence_nil.
  - apply subsequence_keep. assumption.
  - apply subsequence_drop. assumption.
Qed.

Lemma subsequence_snoc_drop {A : Type} (l1 l2 : list A) (x : A) :
  subsequence l1 l2 -> subsequence l1 (l2 ++ [x]).
Proof.
  induction 1; simpl.
  - apply subsequence_drop, subsequence_nil.
  - apply subsequence_keep. assumption.
  - apply subsequence_drop. assumption.
Qed.

Lemma dedup_subsequence (vs : list Vector3) :
  forall acc seen,
    subsequence acc seen ->
    subsequence (fold_left step vs acc) (seen ++ vs).
Proof.
  induction vs as [| v vs IH]; intros acc seen H; simpl.
  - rewrite app_nil_r. exact H.
  - replace (seen ++ v :: vs) with ((seen ++ [v]) ++ vs)
      by (rewrite <- app_assoc; reflexivity).
    apply IH.
    destruct (dedup_step_cases acc v) as [[-> _] | [-> _]].
    + apply subsequence_snoc_keep. exact H.
    + apply subsequence_snoc_drop. exact H.
Qed.

Lemma dedup_fixed (l : list Vector3) :
  forall acc,
    ForallOrdPairs far (acc ++ l) -> fold_left step l acc = acc ++ l.
Proof.
  induction l as [| v l IH]; intros acc H; simpl.
  - rewrite app_nil_r. reflexivity.
  - assert (Hf : Forall (fun u => far u v) acc)
      by (eapply ForallOrdPairs_app_head; exact H).
    assert (Hs : step acc v = acc ++ [v]).
    { unfold step. apply existsb_near_false in Hf. rewrite Hf. reflexivity. }
    rewrite Hs, IH; rewrite <- app_assoc; [reflexivity | exact H].
Qed.

Lemma dedup_is_fold (vs : list Vector3) :
  HobermanSphere.removeDuplicateVertices vs = fold_left step vs [].
Proof. reflexivity. Qed.

Lemma dedup_far (vs : list Vector3) :
  ForallOrdPairs far (HobermanSphere.removeDuplicateVertices vs).
Proof. rewrite dedup_is_fold. apply dedup_separated. constructor. Qed.

Lemma dedup_idempotent (vs : list Vector3) :
  HobermanSphere.removeDuplicateVertices
    (HobermanSphere.removeDuplicateVertices vs)
  = HobermanSphere.removeDuplicateVertices vs.
Proof.
  rewrite (dedup_is_fold (HobermanSphere.removeDuplicateVertices vs)).
  apply (dedup_fixed _ []). simpl. apply dedup_far.
Qed.

Lemma dedup_covers_all (vs : list Vector3) (v : Vector3) :
  In v vs ->
  exists u,
    In u (HobermanSphere.removeDuplicateVertices vs)
    /\ Vector3.distanceTo u v < 0.0001.
Proof. rewrite dedup_is_fold. apply dedup_covers. Qed.

Lemma dedup_in_order (vs : list Vector3) :
  subsequence (HobermanSphere.removeDuplicateVertices vs) vs.
Proof.
  rewrite dedup_is_fold.
  apply (dedup_subsequence vs [] []). constructor.
Qed.

Lemma dedup_keeps_head (v : Vector3) (vs : list Vector3) :
  exists more, HobermanSphere.removeDuplicateVertices (v :: vs) = v :: more.
Proof.
  rewrite dedup_is_fold. simpl.
  change (step [] v) with [v].
  destruct (dedup_extends vs [v]) as [more ->]. exists more. reflexivity.
Qed.

Lemma far_pairs_distinct (l : list Vector3) :
  ForallOrdPairs far l ->
  NoDup l
  /\ forall u v, In u l -> In v l -> u <> v ->
                 0.0001 <= Vector3.distanceTo u v.
Proof.
  intros H. split.
  - induction H as [| a l Ha Hl IH]; constructor; [| exact IH].
    intros Hin. rewrite Forall_forall in Ha.
    apply (Ha a Hin). rewrite distanceTo_self. lra.
  - intros u v Hu Hv Hne.
    destruct (ForallOrdPairs_In H u v Hu Hv) as [E | [F | F]].
    + contradiction.
    + unfold far in F. lra.
    + unfold far in F. rewrite distanceTo_sym. lra.
Qed.

End Dedup.

(** X6: the vertices [removeDuplicateVertices] keeps are pairwise
    distinct, and any two different ones are at least 0.0001 apart. *)
Theorem X6_dedup_separated (vs : list Vector3) :
  NoDup (HobermanSphere.removeDuplicateVertices vs)
  /\ forall u v,
      In u (HobermanSphere.removeDuplicateVertices vs) ->
      In v (HobermanSphere.removeDuplicateVertices vs) ->
      u <> v ->
      0.0001 <= Vector3.distanceTo u v.
Proof.
  apply far_pairs_distinct. apply dedup_far.
Qed.

Lemma X6_dedup_separated_witness :
  0.0001 <= Vector3.distanceTo (V3 1 0 0) (V3 (1 + 1) 0 0).
Proof.
  apply (X6_dedup_separated
           (HobermanSphere.vertexPositions (two_vertices 1 1 2))).
  - rewrite two_vertices_unique by lra. left. reflexivity.
  - rewrite two_vertices_unique by lra. right. left. reflexivity.
  - intros H. injection H as H. lra.
Defined.

(** X7: no input vertex is lost without a representative: every vertex
    handed to [removeDuplicateVertices] is closer than 0.0001 to some
    vertex that is kept. *)
Theorem X7_dedup_covers (vs : list Vector3) (v : Vector3)
        (Hin : In v vs) :
  exists u,
    In u (HobermanSphere.removeDuplicateVertices vs)
    /\ Vector3.distanceTo u v < 0.0001.
Proof. apply dedup_covers_all, Hin. Qed.

Lemma X7_dedup_covers_witness :
  exists u,
    In u (HobermanSphere.removeDuplicateVertices
            [V3 1 0 0; V3 (1 + 0.00005) 0 0])
    /\ Vector3.distanceTo u (V3 (1 + 0.00005) 0 0) < 0.0001.
Proof.
  apply (X7_dedup_covers [V3 1 0 0; V3 (1 + 0.00005) 0 0]).
  right. left. reflexivity.
Defined.

(** X8: [removeDuplicateVertices] keeps the input order and adds nothing:
    its result is the input with some vertices left out.  The first input
    vertex is always kept, so the result is empty only for empty input. *)
Theorem X8_dedup_in_order (vs : list Vector3) :
  subsequence (HobermanSphere.removeDuplicateVertices vs) vs
  /\ HobermanSphere.removeDuplicateVertices [] = []
  /\ forall v rest,
      exists more,
        HobermanSphere.removeDuplicateVertices (v :: rest) = v :: more.
Proof.
  split; [apply dedup_in_order | split; [reflexivity |]].
  intros v rest. apply dedup_keeps_head.
Qed.

(** X9: deduplicating twice changes nothing more. *)
Theorem X9_dedup_idempotent (vs : list Vector3) :
  HobermanSphere.removeDuplicateVertices
    (HobermanSphere.removeDuplicateVertices vs)
  = HobermanSphere.removeDuplicateVertices vs.
Proof. apply dedup_idempotent. Qed.

(** ** The position array *)

Lemma by_threes {A : Type} (P : list A -> Prop) :
  P [] ->
  (forall a, P [a]) ->
  (forall a b, P [a; b]) ->
  (forall a b c rest, P rest -> P (a :: b :: c :: rest)) ->
  forall l, P l.
Proof.
  intros H0 H1 H2 H3 l.
  assert (H : P l /\ (forall a, P (a :: l)) /\ (forall a b, P (a :: b :: l))).
  { induction l as [| x l [IH0 [IH1 IH2]]].
    - repeat split; auto.
    - repeat split; auto. }
  apply H.
Qed.

Lemma vertexPositions_length (vertices : list R) :
  List.length (HobermanSphere.vertexPositions vertices)
  = ((List.length vertices + 2) / 3)%nat.
Proof.
  induction vertices as [| a | a b | a b c rest IH] using by_threes;
    try reflexivity.
  cbn [HobermanSphere.vertexPositions List.length]. rewrite IH.
  replace (S (S (S (List.length rest))) + 2)%nat
    with (List.length rest + 2 + 1 * 3)%nat by lia.
  rewrite Nat.div_add by lia. lia.
Qed.

Lemma vertexPositions_nth (vertices : list R) :
  forall i a b c,
    nth_error vertices (3 * i) = Some a ->
    nth_error vertices (3 * i + 1) = Some b ->
    nth_error vertices (3 * i + 2) = Some c ->
    nth_error (HobermanSphere.vertexPositions vertices) i = Some (V3 a b c).
Proof.
  induction vertices as [| x | x y | x y z rest IH] using by_threes;
    intros i a b c Ha Hb Hc.
  - destruct i; discriminate Ha.
  - destruct i; [discriminate Hb |].
    replace (3 * S i)%nat with (S (S (S (3 * i)))) in Ha by lia.
    simpl in Ha. discriminate Ha.
  - destruct i; [discriminate Hc |].
    replace (3 * S i)%nat with (S (S (S (3 * i)))) in Ha by lia.
    simpl in Ha. discriminate Ha.
  - destruct i as [| i].
    + simpl in Ha, Hb, Hc.
      injection Ha as <-. injection Hb as <-. injection Hc as <-.
      reflexivity.
    + replace (3 * S i)%nat with (S (S (S (3 * i)))) in Ha by lia.
      replace (3 * S i + 1)%nat with (S (S (S (3 * i + 1)))) in Hb by lia.
      replace (3 * S i + 2)%nat with (S (S (S (3 * i + 2)))) in Hc by lia.
      simpl in Ha, Hb, Hc.
      cbn [HobermanSphere.vertexPositions nth_error].
      apply IH; assumption.
Qed.

Lemma vertexPositions_tail (vertices : list R) (a b : R) :
  (List.length vertices mod 3 = 0)%nat ->
  HobermanSphere.vertexPositions (vertices ++ [a; b])
  = HobermanSphere.vertexPositions vertices ++ [V3 a b 0]
  /\ HobermanSphere.vertexPositions (vertices ++ [a])
     = HobermanSphere.vertexPositions vertices ++ [V3 a 0 0].
Proof.
  induction vertices as [| x | x y | x y z rest IH] using by_threes;
    intros H.
  - split; reflexivity.
  - simpl in H. discriminate H.
  - simpl in H. discriminate H.
  - cbn [List.length] in H.
    replace (S (S (S (List.length rest))))
      with (List.length rest + 1 * 3)%nat in H by lia.
    rewrite Nat.Div0.mod_add in H.
    destruct (IH H) as [E2 E1].
    cbn [app HobermanSphere.vertexPositions]. rewrite E2, E1.
    split; reflexivity.
Qed.

(** X10: the loop over the position array makes one vector per started
    group of three numbers.  The [i]-th vector is made of the numbers at
    [3*i], [3*i+1] and [3*i+2]; after complete groups, a trailing group of
    one or two numbers is completed with zeros. *)
Theorem X10_vertexPositions_chunks
        (vertices : list R) (i : nat) (a b c : R)
        (Ha : nth_error vertices (3 * i) = Some a)
        (Hb : nth_error vertices (3 * i + 1) = Some b)
        (Hc : nth_error vertices (3 * i + 2) = Some c) :
  nth_error (HobermanSphere.vertexPositions vertices) i = Some (V3 a b c)
  /\ List.length (HobermanSphere.vertexPositions vertices)
     = ((List.length vertices + 2) / 3)%nat
  /\ ((List.length vertices mod 3 = 0)%nat ->
      forall u v,
        HobermanSphere.vertexPositions (vertices ++ [u; v])
        = HobermanSphere.vertexPositions vertices ++ [V3 u v 0]
        /\ HobermanSphere.vertexPositions (vertices ++ [u])
           = HobermanSphere.vertexPositions vertices ++ [V3 u 0 0]).
Proof.
  split; [apply vertexPositions_nth; assumption | split].
  - apply vertexPositions_length.
  - intros H u v. apply vertexPositions_tail, H.
Qed.

Lemma X10_vertexPositions_chunks_witness :
  nth_error (HobermanSphere.vertexPositions [1; 2; 3; 4; 5; 6]) 1
  = Some (V3 4 5 6)
  /\ HobermanSphere.vertexPositions ([1; 2; 3; 4; 5; 6] ++ [7; 8])
     = HobermanSphere.vertexPositions [1; 2; 3; 4; 5; 6] ++ [V3 7 8 0].
Proof.
  destruct (X10_vertexPositions_chunks
              [1; 2; 3; 4; 5; 6] 1 4 5 6 eq_refl eq_refl eq_refl)
    as [Hn [_ Ht]].
  split; [exact Hn |].
  apply (Ht eq_refl 7 8).
Defined.

(** ** The assembly as built *)

Lemma createConnectionStrut_mesh
      (this : HobermanSphere.HobermanSphere) (p q : Vector3) :
  HobermanSphere.createConnectionStrut this p q
  = HobermanSphere.group_add
      this
      [OwnMesh (connectionStrutMesh
                  (strutRadius (HobermanSphere.config this))
                  (HobermanSphere.material this) p q)].
Proof. reflexivity. Qed.

Lemma inner_loop_meshes (vi : Vector3) (rest : list Vector3) :
  forall this : HobermanSphere.HobermanSphere,
    fold_left
      (fun this vj =>
         if Rltb (Vector3.distanceTo vi vj) 1.2
         then HobermanSphere.createConnectionStrut this vi vj
         else this)
      rest this
    = HobermanSphere.group_add
        this
        (map (fun pq =>
                OwnMesh (connectionStrutMesh
                           (strutRadius (HobermanSphere.config this))
                           (HobermanSphere.material this)
                           (fst pq) (snd pq)))
             (map (pair vi)
                  (filter (fun vj => Rltb (Vector3.distanceTo vi vj) 1.2)
                          rest))).
Proof.
  induction rest as [| vj rest IH]; intros this.
  - simpl. symmetry. apply group_add_nil.
  - simpl. destruct (Rltb (Vector3.distanceTo vi vj) 1.2).
    + rewrite createConnectionStrut_mesh, IH, group_add_app. reflexivity.
    + apply IH.
Qed.

Lemma createConnectingStruts_meshes (vs : list Vector3) :
  forall this : HobermanSphere.HobermanSphere,
    HobermanSphere.createConnectingStruts this vs
    = HobermanSphere.group_add
        this
        (map (fun pq =>
                OwnMesh (connectionStrutMesh
                           (strutRadius (HobermanSphere.config this))
                           (HobermanSphere.material this)
                           (fst pq) (snd pq)))
             (connectedPairs vs)).
Proof.
  induction vs as [| vi rest IH]; intros this.
  - simpl. symmetry. apply group_add_nil.
  - simpl. rewrite inner_loop_meshes, IH, group_add_app, map_app.
    reflexivity.
Qed.

Lemma build_links_exact (vs : list Vector3) :
  forall this : HobermanSphere.HobermanSphere,
  exists ls,
    fold_left
      (fun acc vertex =>
         this <- acc ;; HobermanSphere.createRadialScissorLink this vertex)
      vs (Normal this)
    = Normal
        (HobermanSphere.set_scissorLinks
           (HobermanSphere.group_add
              this
              (flat_map linkChildren
                 (seq (List.length (HobermanSphere.scissorLinks this))
                      (List.length vs))))
           (HobermanSphere.scissorLinks this ++ ls))
    /\ Forall2 (built_for (HobermanSphere.config this)
                          (HobermanSphere.material this)) vs ls.
Proof.
  induction vs as [| v vs IH]; intros this.
  - exists []. simpl.
    destruct this as [c e a sp rs ps cp ls [ch rot] m].
    unfold HobermanSphere.set_scissorLinks, HobermanSphere.group_add,
      HobermanSphere.set_sphereGroup. simpl. rewrite !app_nil_r.
    split; [reflexivity | constructor].
  - simpl fold_left.
    change (' this0 <- Normal this;;
            HobermanSphere.createRadialScissorLink this0 v)
      with (HobermanSphere.createRadialScissorLink this v).
    assert (Hl : exists l,
               HobermanSphere.createRadialScissorLink this v
               = Normal
                   (HobermanSphere.set_scissorLinks
                      (HobermanSphere.group_add
                         this
                         (linkChildren
                            (List.length (HobermanSphere.scissorLinks this))))
                      (HobermanSphere.scissorLinks this ++ [l]))
               /\ built_for (HobermanSphere.config this)
                            (HobermanSphere.material this) v l).
    { eexists. split; reflexivity. }
    destruct Hl as [l [Hl Hb]]. rewrite Hl.
    match goal with
    | |- context [fold_left _ vs (Normal ?t)] =>
        destruct (IH t) as [ls [Hfold Hall]]
    end.
    exists (l :: ls). split.
    + rewrite Hfold.
      unfold HobermanSphere.set_scissorLinks, HobermanSphere.group_add,
        HobermanSphere.set_sphereGroup.
      cbn [HobermanSphere.config HobermanSphere.expansionFactor
           HobermanSphere.isAnimating HobermanSphere.animationSpeed
           HobermanSphere.rotationSpeed HobermanSphere.pitchSpeed
           HobermanSphere.currentPitch HobermanSphere.scissorLinks
           HobermanSphere.sphereGroup HobermanSphere.material
           children rotation List.length seq flat_map].
      rewrite length_app. cbn [List.length].
      rewrite <- !app_assoc. cbn [app].
      replace (List.length (HobermanSphere.scissorLinks this) + 1)%nat
        with (S (List.length (HobermanSphere.scissorLinks this))) by lia.
      reflexivity.
    + constructor; [exact Hb | exact Hall].
Qed.

(** The state the constructor returns, in full. *)
Lemma constructor_built
      (IcosahedronGeometry : R -> R -> list R) (options : Options) :
  let cfg := configOf options in
  let mat := HobermanSphere.createMaterial (cfg_color cfg)
                                           (materialType cfg) in
  let us :=
    HobermanSphere.removeDuplicateVertices
      (HobermanSphere.vertexPositions
         (IcosahedronGeometry 1 (subdivisions cfg))) in
  exists ls,
    HobermanSphere.constructor IcosahedronGeometry options
    = Normal
        (HobermanSphere.mk
           cfg 0.5 false 0.3 0.2 0.1 0 ls
           (mkGroup
              (flat_map linkChildren (seq 0 (List.length us))
               ++ map (fun pq =>
                         OwnMesh (connectionStrutMesh
                                    (strutRadius cfg) mat (fst pq) (snd pq)))
                      (connectedPairs us))
              (mkEuler 0 0 0))
           mat)
    /\ Forall2 (built_for cfg mat) us ls.
Proof.
  intros cfg mat us.
  unfold HobermanSphere.constructor, HobermanSphere.buildSphere.
  fold (configOf options). fold cfg. fold mat.
  cbn [HobermanSphere.config]. fold us.
  match goal with
  | |- context [fold_left _ us (Normal ?t)] =>
      destruct (build_links_exact us t) as [ls [Hfold Hall]];
      rewrite Hfold
  end.
  cbn [bind]. rewrite createConnectingStruts_meshes.
  exists ls. split; [reflexivity | exact Hall].
Qed.

Lemma js_default_spec (o : option R) (d : R) :
  d <> 0 ->
  js_default o d <> 0
  /\ (o = None \/ o = Some 0 -> js_default o d = d)
  /\ (forall r, o = Some r -> r <> 0 -> js_default o d = r).
Proof.
  intros Hd. unfold js_default, js_or.
  destruct o as [a |].
  - destruct (Req_dec_T a 0) as [Ha | Ha].
    + repeat split; auto. intros r Hr Hnz. injection Hr as <-. contradiction.
    + repeat split; auto.
      * intros [H | H]; [discriminate H | injection H as H; contradiction].
      * intros r Hr _. injection Hr as <-. reflexivity.
  - repeat split; auto. intros r Hr. discriminate Hr.
Qed.

(** X11: the constructor replaces every numeric option that is absent or 0
    by its default (minRadius 2, maxRadius 8, strutRadius 0.08,
    subdivisions 2, color 0x00aaff) and takes any other value as given, so
    no numeric field of the configuration is ever 0; an absent or empty
    material type becomes "metallic". *)
Theorem X11_config_defaults
        (IcosahedronGeometry : R -> R -> list R) (options : Options) :
  exists s,
    HobermanSphere.constructor IcosahedronGeometry options = Normal s
    /\ let cfg := HobermanSphere.config s in
       let defaulted (o : option R) (d field : R) :=
         field <> 0
         /\ (o = None \/ o = Some 0 -> field = d)
         /\ (forall r, o = Some r -> r <> 0 -> field = r) in
       defaulted (opt_minRadius options) 2 (minRadius cfg)
       /\ defaulted (opt_maxRadius options) 8 (maxRadius cfg)
       /\ defaulted (opt_strutRadius options) 0.08 (strutRadius cfg)
       /\ defaulted (opt_subdivisions options) 2 (subdivisions cfg)
       /\ defaulted (opt_color options) 43775 (cfg_color cfg)
       /\ (opt_materialType options = None
           \/ opt_materialType options = Some ""%string ->
           materialType cfg = "metallic"%string)
       /\ HobermanSphere.material s
          = HobermanSphere.createMaterial (cfg_color cfg) (materialType cfg).
Proof.
  destruct (constructor_built IcosahedronGeometry options) as [ls [Hs _]].
  eexists. split; [exact Hs |].
  cbn [HobermanSphere.config HobermanSphere.material configOf
       minRadius maxRadius strutRadius subdivisions cfg_color materialType].
  repeat match goal with
         | |- _ /\ _ => split
         end;
    try (apply js_default_spec; lra); try reflexivity.
  intros [-> | ->]; reflexivity.
Qed.

Lemma X11_config_defaults_witness :
  exists s,
    HobermanSphere.constructor
      (two_vertices 1)
      (mkOptions None (Some 10) None (Some 0) (Some 0) None)
    = Normal s
    /\ maxRadius (HobermanSphere.config s) = 10
    /\ subdivisions (HobermanSphere.config s) = 2
    /\ cfg_color (HobermanSphere.config s) = 43775.
Proof.
  destruct (X11_config_defaults
              (two_vertices 1)
              (mkOptions None (Some 10) None (Some 0) (Some 0) None))
    as [s [Hs [_ [[_ [_ Hmax]] [_ [[_ [Hsub _]] [[_ [Hcol _]] _]]]]]]].
  exists s. split; [exact Hs |]. split; [| split].
  - apply (Hmax 10); [reflexivity | lra].
  - apply Hsub. right. reflexivity.
  - apply Hcol. right. reflexivity.
Defined.

Lemma linkChildren_nth (n : nat) :
  forall a i,
    (i < n)%nat ->
    nth_error (flat_map linkChildren (seq a n)) (3 * i)
    = Some (LinkMesh (a + i) Strut1)
    /\ nth_error (flat_map linkChildren (seq a n)) (3 * i + 1)
       = Some (LinkMesh (a + i) Strut2)
    /\ nth_error (flat_map linkChildren (seq a n)) (3 * i + 2)
       = Some (LinkMesh (a + i) Pivot).
Proof.
  induction n as [| n IH]; intros a i Hi; [lia |].
  destruct i as [| i].
  - simpl. rewrite Nat.add_0_r. repeat split.
  - replace (3 * S i)%nat with (S (S (S (3 * i)))) by lia.
    replace (a + S i)%nat with (S a + i)%nat by lia.
    cbn [seq flat_map linkChildren app Nat.add nth_error].
    apply IH. lia.
Qed.

Lemma linkChildren_length (n a : nat) :
  List.length (flat_map linkChildren (seq a n)) = (3 * n)%nat.
Proof.
  revert a. induction n as [| n IH]; intros a; [reflexivity |].
  cbn [seq flat_map linkChildren app List.length]. rewrite IH. lia.
Qed.

Lemma connectedPairs_bound (vs : list Vector3) :
  (2 * List.length (connectedPairs vs)
   <= List.length vs * (List.length vs - 1))%nat.
Proof.
  induction vs as [| v vs IH]; [simpl; lia |].
  cbn [connectedPairs List.length].
  rewrite length_app, length_map.
  pose proof (filter_length_le
                (fun vj => Rltb (Vector3.distanceTo v vj) 1.2) vs) as Hf.
  replace (S (List.length vs) - 1)%nat with (List.length vs) by lia.
  destruct (List.length vs) as [| k] eqn:E.
  - simpl in *. lia.
  - replace (S k - 1)%nat with k in IH by lia. nia.
Qed.

Lemma Forall2_nth_left {A B : Type} (P : A -> B -> Prop)
      (la : list A) (lb : list B) :
  Forall2 P la lb ->
  forall i a, nth_error la i = Some a ->
              exists b, nth_error lb i = Some b /\ P a b.
Proof.
  induction 1 as [| x y la lb Hxy _ IH]; intros i a Hi.
  - destruct i; discriminate Hi.
  - destruct i as [| i].
    + injection Hi as <-. exists y. split; [reflexivity | exact Hxy].
    + apply (IH i a Hi).
Qed.

(** X12: in the assembly as built, with [n] unique vertices, the group
    holds first the three meshes of link 0, then those of link 1, and so
    on, each referring to the link at its index of [scissorLinks], and
    after these [3*n] children one connection strut per connected pair,
    in the order of the double loop; there are [n] links and at most
    [n*(n-1)/2] struts. *)
Theorem X12_built_layout
        (IcosahedronGeometry : R -> R -> list R) (options : Options) :
  exists s,
    HobermanSphere.constructor IcosahedronGeometry options = Normal s
    /\ let us :=
         HobermanSphere.removeDuplicateVertices
           (HobermanSphere.vertexPositions
              (IcosahedronGeometry
                 1 (subdivisions (HobermanSphere.config s)))) in
       let n := List.length us in
       let group := children (HobermanSphere.sphereGroup s) in
       List.length (HobermanSphere.scissorLinks s) = n
       /\ List.length group
          = (3 * n + List.length (connectedPairs us))%nat
       /\ (2 * List.length (connectedPairs us) <= n * (n - 1))%nat
       /\ (forall i,
              (i < n)%nat ->
              nth_error group (3 * i) = Some (LinkMesh i Strut1)
              /\ nth_error group (3 * i + 1) = Some (LinkMesh i Strut2)
              /\ nth_error group (3 * i + 2) = Some (LinkMesh i Pivot))
       /\ (forall j p q,
              nth_error (connectedPairs us) j = Some (p, q) ->
              nth_error group (3 * n + j)
              = Some (OwnMesh
                        (connectionStrutMesh
                           (strutRadius (HobermanSphere.config s))
                           (HobermanSphere.material s) p q))).
Proof.
  destruct (constructor_built IcosahedronGeometry options) as [ls [Hs Hall]].
  eexists. split; [exact Hs |].
  cbn [HobermanSphere.config HobermanSphere.scissorLinks
       HobermanSphere.sphereGroup HobermanSphere.material children].
  set (us := HobermanSphere.removeDuplicateVertices _) in *.
  split; [| split; [| split; [| split]]].
  - symmetry. eapply Forall2_length. exact Hall.
  - rewrite length_app, linkChildren_length, length_map. reflexivity.
  - apply connectedPairs_bound.
  - intros i Hi.
    destruct (linkChildren_nth (List.length us) 0 i Hi) as [H1 [H2 H3]].
    pose proof (linkChildren_length (List.length us) 0) as Hlen.
    rewrite !nth_error_app1 by lia.
    simpl in H1, H2, H3. repeat split; assumption.
  - intros j p q Hj.
    rewrite nth_error_app2 by (rewrite linkChildren_length; lia).
    rewrite linkChildren_length.
    replace (3 * List.length us + j - 3 * List.length us)%nat with j by lia.
    rewrite nth_error_map, Hj. reflexivity.
Qed.

Lemma X12_built_layout_witness :
  exists s,
    HobermanSphere.constructor (two_vertices 1) sample_options = Normal s
    /\ nth_error (children (HobermanSphere.sphereGroup s)) (3 * 1 + 2)
       = Some (LinkMesh 1 Pivot).
Proof.
  destruct (X12_built_layout (two_vertices 1) sample_options)
    as [s [Hs [_ [_ [_ [Hl _]]]]]].
  exists s. split; [exact Hs |].
  apply (Hl 1%nat).
  rewrite two_vertices_unique by lra. simpl. lia.
Defined.

Lemma multiplyScalar_one (v : Vector3) : Vector3.multiplyScalar v 1 = v.
Proof.
  destruct v as [a b c]. unfold Vector3.multiplyScalar. simpl.
  f_equal; ring.
Qed.

Lemma normalize_idempotent (v : Vector3) :
  Vector3.normalize (Vector3.normalize v) = Vector3.normalize v.
Proof.
  destruct (Req_dec_T (Vector3.length v) 0) as [Hz | Hnz].
  - apply length_zero_iff in Hz. subst. rewrite !normalize_zero.
    reflexivity.
  - pose proof (normalize_unit v Hnz) as Hu.
    rewrite (normalize_nonzero (Vector3.normalize v)) by (rewrite Hu; lra).
    rewrite Hu. replace (1 / 1) with 1 by field.
    apply multiplyScalar_one.
Qed.

(** X13: in the assembly as built, the link at index [i] belongs to the
    unique vertex at index [i]: its axis is the normalised vertex, its
    centre that direction times [maxRadius/2], its strut length
    [maxRadius/2], its strut radius the configured one, its factor 0.5 and
    its material the assembly's.  For a non-zero vertex the axis is a unit
    vector and the centre lies at distance [|maxRadius|/2] from the
    origin. *)
Theorem X13_built_link_placement
        (IcosahedronGeometry : R -> R -> list R) (options : Options) :
  exists s,
    HobermanSphere.constructor IcosahedronGeometry options = Normal s
    /\ forall i v,
        nth_error
          (HobermanSphere.removeDuplicateVertices
             (HobermanSphere.vertexPositions
                (IcosahedronGeometry
                   1 (subdivisions (HobermanSphere.config s))))) i
        = Some v ->
        exists l,
          nth_error (HobermanSphere.scissorLinks s) i = Some l
          /\ ScissorLink.axis l = Vector3.normalize v
          /\ ScissorLink.position l
             = Vector3.multiplyScalar
                 (Vector3.normalize v)
                 (maxRadius (HobermanSphere.config s) * 0.5)
          /\ ScissorLink.strutLength l
             = maxRadius (HobermanSphere.config s) * 0.5
          /\ ScissorLink.strutRadius l
             = strutRadius (HobermanSphere.config s)
          /\ ScissorLink.expansionFactor l = 0.5
          /\ ScissorLink.material l = HobermanSphere.material s
          /\ (v <> Vector3.zero ->
              Vector3.length (ScissorLink.axis l) = 1
              /\ Vector3.length (ScissorLink.position l)
                 = Rabs (maxRadius (HobermanSphere.config s)) * 0.5).
Proof.
  destruct (constructor_built IcosahedronGeometry options) as [ls [Hs Hall]].
  eexists. split; [exact Hs |].
  cbn [HobermanSphere.config HobermanSphere.scissorLinks
       HobermanSphere.material].
  intros i v Hv.
  destruct (Forall2_nth_left _ _ _ Hall i v Hv) as [l [Hl Hb]].
  exists l. split; [exact Hl |].
  unfold built_for, ScissorLink.constructor in Hb.
  injection Hb as Hb. subst l.
  cbn [ScissorLink.axis ScissorLink.position ScissorLink.strutLength
       ScissorLink.strutRadius ScissorLink.expansionFactor
       ScissorLink.material ScissorLink.updateGeometry
       ScissorLink.updateEndpoints].
  unfold Vector3.clone. rewrite normalize_idempotent.
  repeat split.
  - apply normalize_unit. intros Hz. apply length_zero_iff in Hz.
    contradiction.
  - rewrite length_multiplyScalar, normalize_unit.
    + rewrite Rabs_mult, (Rabs_pos_eq 0.5) by lra.
      cbn [configOf maxRadius]. lra.
    + intros Hz. apply length_zero_iff in Hz. contradiction.
Qed.

Lemma X13_built_link_placement_witness :
  exists s l,
    HobermanSphere.constructor (two_vertices 1) sample_options = Normal s
    /\ nth_error (HobermanSphere.scissorLinks s) 0 = Some l
    /\ Vector3.length (ScissorLink.axis l) = 1.
Proof.
  destruct (X13_built_link_placement (two_vertices 1) sample_options)
    as [s [Hs H]].
  destruct (H 0%nat (V3 1 0 0)) as [l [Hl [_ [_ [_ [_ [_ [_ Hu]]]]]]]].
  - rewrite two_vertices_unique by lra. reflexivity.
  - exists s, l. split; [exact Hs |]. split; [exact Hl |].
    apply Hu. intros E. injection E as E. lra.
Defined.

Lemma connectedPairs_distinct (vs : list Vector3) (p q : Vector3) :
  NoDup vs -> In (p, q) (connectedPairs vs) -> p <> q.
Proof.
  intros Hnd Hin E. subst q.
  apply connectedPairs_In in Hin.
  destruct Hin as [i [j [Hij [Hi [Hj _]]]]].
  assert (i = j); [| lia].
  apply (proj1 (NoDup_nth_error vs) Hnd); [| congruence].
  apply nth_error_Some. rewrite Hi. discriminate.
Qed.





(** ** Scaling of the connection struts *)

Lemma scaled_difference (p q : Vector3) (k : R) :
  Vector3.subVectors (Vector3.multiplyScalar q k)
                     (Vector3.multiplyScalar p k)
  = Vector3.multiplyScalar (Vector3.subVectors q p) k.
Proof.
  unfold Vector3.subVectors, Vector3.multiplyScalar. simpl. f_equal; ring.
Qed.

Lemma scaled_midpoint (p q : Vector3) (k : R) :
  Vector3.multiplyScalar
    (Vector3.addVectors (Vector3.multiplyScalar p k)
                        (Vector3.multiplyScalar q k)) 0.5
  = Vector3.multiplyScalar
      (Vector3.multiplyScalar (Vector3.addVectors p q) 0.5) k.
Proof.
  unfold Vector3.addVectors, Vector3.add, Vector3.multiplyScalar. simpl.
  f_equal; lra.
Qed.

(** X15: [setExpansion] scales every connection strut uniformly about the
    origin by [k = (minRadius + (maxRadius - minRadius)*f) / maxRadius],
    [f] being the clamped factor: the new position is the midpoint of the
    stored endpoints times [k], and [scale.y] is [|k|] times the stored
    distance over the cylinder height.  With [0 < minRadius <= maxRadius]
    the ratio [k] stays between [minRadius/maxRadius] and 1. *)
Theorem X15_strut_scaling
        (s : HobermanSphere.HobermanSphere) (x : R)
        (n : nat) (m : Mesh.Mesh) (d : ConnectionData) (h : R)
        (Hn : nth_error (children (HobermanSphere.sphereGroup s)) n
              = Some (OwnMesh m))
        (Hd : Mesh.userData m = Some d)
        (Hh : parameters_height (Mesh.geometry m) = Some h) :
  let cfg := HobermanSphere.config s in
  let k := (minRadius cfg
            + (maxRadius cfg - minRadius cfg) * Rmax 0 (Rmin 1 x))
           / maxRadius cfg in
  (exists m',
      nth_error
        (children
           (HobermanSphere.sphereGroup (HobermanSphere.setExpansion s x))) n
      = Some (OwnMesh m')
      /\ Mesh.position m'
         = Vector3.multiplyScalar
             (Vector3.multiplyScalar
                (Vector3.addVectors (point1 d) (point2 d)) 0.5) k
      /\ vy (Mesh.scale m')
         = Rabs k
           * (Vector3.length (Vector3.subVectors (point2 d) (point1 d)) / h))
  /\ (0 < minRadius cfg <= maxRadius cfg ->
      minRadius cfg / maxRadius cfg <= k <= 1).
Proof.
  intros cfg k. split.
  - rewrite sphere_setExpansion_children, nth_error_map, Hn.
    destruct m as [g mt pos qt sc ud]. simpl in Hd, Hh. subst ud.
    cbn [option_map HobermanSphere.updateConnectionStrut Mesh.userData
         Mesh.geometry Mesh.set_position].
    rewrite Hh.
    eexists. split; [reflexivity |].
    cbn [Mesh.position Mesh.scale Mesh.set_scale_y Mesh.set_quaternion vy
         HobermanSphere.set_expansionFactor HobermanSphere.config
         HobermanSphere.expansionFactor].
    unfold Vector3.clone. fold cfg. fold k.
    rewrite scaled_midpoint, scaled_difference, length_multiplyScalar.
    split; [reflexivity |]. unfold Rdiv. ring.
  - intros [Hmin Hmax].
    pose proof (clamp_range x) as Hc. subst k.
    set (f := Rmax 0 (Rmin 1 x)) in *.
    assert (Hpos : 0 < maxRadius cfg) by lra.
    split.
    + apply Rmult_le_compat_r; [apply Rlt_le, Rinv_0_lt_compat, Hpos |].
      nra.
    + apply (Rmult_le_reg_r (maxRadius cfg)); [exact Hpos |].
      unfold Rdiv. rewrite Rmult_assoc, Rinv_l by lra. nra.
Qed.

Lemma X15_strut_scaling_witness :
  2 / 8 <= (2 + (8 - 2) * Rmax 0 (Rmin 1 (1 / 2))) / 8 <= 1.
Proof.
  apply (X15_strut_scaling
           sample_sphere (1 / 2) 3
           (connectionStrutMesh 0.08 sample_material (V3 1 0 0) (V3 0 1 0))
           (mkConnectionData (V3 1 0 0) (V3 0 1 0))
           (Vector3.length (Vector3.subVectors (V3 0 1 0) (V3 1 0 0)))
           eq_refl eq_refl eq_refl).
  simpl. lra.
Defined.

(** ** Frames of the animation *)

(** X16: an [update] while animating sets the expansion factor to the
    breathing value [sin(now*0.001*animationSpeed)*0.5 + 0.5], which lies
    in [[0,1]] and is therefore never clamped; it advances the yaw by
    [rotationSpeed*deltaTime] and the pitch phase by
    [pitchSpeed*deltaTime], and sets the two tilt angles from the new
    phase, within 0.4 and 0.3 of zero.  The animation flag, the speeds and
    the configuration are kept. *)
Theorem X16_animating_update
        (s : HobermanSphere.HobermanSphere) (now deltaTime : R)
        (Ha : HobermanSphere.isAnimating s = true) :
  let s' := HobermanSphere.update s now deltaTime in
  let breathing :=
    sin (now * 0.001 * HobermanSphere.animationSpeed s) * 0.5 + 0.5 in
  let r := rotation (HobermanSphere.sphereGroup s) in
  let r' := rotation (HobermanSphere.sphereGroup s') in
  HobermanSphere.expansionFactor s' = breathing
  /\ 0 <= breathing <= 1
  /\ ey r' = ey r + HobermanSphere.rotationSpeed s * deltaTime
  /\ HobermanSphere.currentPitch s'
     = HobermanSphere.currentPitch s
       + HobermanSphere.pitchSpeed s * deltaTime
  /\ ex r' = sin (HobermanSphere.currentPitch s') * 0.4
  /\ ez r' = cos (HobermanSphere.currentPitch s' * 0.7) * 0.3
  /\ - 0.4 <= ex r' <= 0.4
  /\ - 0.3 <= ez r' <= 0.3
  /\ HobermanSphere.isAnimating s' = true
  /\ HobermanSphere.animationSpeed s' = HobermanSphere.animationSpeed s
  /\ HobermanSphere.rotationSpeed s' = HobermanSphere.rotationSpeed s
  /\ HobermanSphere.pitchSpeed s' = HobermanSphere.pitchSpeed s
  /\ HobermanSphere.config s' = HobermanSphere.config s.
Proof.
  intros s' breathing r r'.
  assert (Hb : 0 <= breathing <= 1).
  { subst breathing.
    destruct (SIN_bound (now * 0.001 * HobermanSphere.animationSpeed s)).
    lra. }
  subst s' r r'. unfold HobermanSphere.update. rewrite Ha.
  cbn [HobermanSphere.setExpansion HobermanSphere.updateConnectionStruts
       HobermanSphere.set_rotation HobermanSphere.set_currentPitch
       HobermanSphere.set_sphereGroup HobermanSphere.set_scissorLinks
       HobermanSphere.set_expansionFactor
       HobermanSphere.config HobermanSphere.expansionFactor
       HobermanSphere.isAnimating HobermanSphere.animationSpeed
       HobermanSphere.rotationSpeed HobermanSphere.pitchSpeed
       HobermanSphere.currentPitch HobermanSphere.sphereGroup
       rotation ex ey ez].
  fold breathing.
  set (p := HobermanSphere.currentPitch s
            + HobermanSphere.pitchSpeed s * deltaTime).
  destruct (SIN_bound p) as [Hs1 Hs2].
  destruct (COS_bound (p * 0.7)) as [Hc1 Hc2].
  repeat split; try (rewrite clamp_id by exact Hb; reflexivity);
    try exact Ha; try lra.
Qed.

Lemma X16_animating_update_witness :
  HobermanSphere.currentPitch
    (HobermanSphere.update
       (HobermanSphere.startAnimation sample_sphere) 1000 0.016)
  = 0 + 0.1 * 0.016.
Proof.
  apply (X16_animating_update
           (HobermanSphere.startAnimation sample_sphere) 1000 0.016).
  reflexivity.
Defined.

Lemma update_animating_fields
      (s : HobermanSphere.HobermanSphere) (now deltaTime : R) :
  HobermanSphere.isAnimating s = true ->
  HobermanSphere.isAnimating (HobermanSphere.update s now deltaTime) = true
  /\ HobermanSphere.rotationSpeed (HobermanSphere.update s now deltaTime)
     = HobermanSphere.rotationSpeed s
  /\ HobermanSphere.pitchSpeed (HobermanSphere.update s now deltaTime)
     = HobermanSphere.pitchSpeed s
  /\ ey (rotation (HobermanSphere.sphereGroup
                     (HobermanSphere.update s now deltaTime)))
     = ey (rotation (HobermanSphere.sphereGroup s))
       + HobermanSphere.rotationSpeed s * deltaTime
  /\ HobermanSphere.currentPitch (HobermanSphere.update s now deltaTime)
     = HobermanSphere.currentPitch s
       + HobermanSphere.pitchSpeed s * deltaTime.
Proof.
  intros Ha. unfold HobermanSphere.update. rewrite Ha.
  repeat split. exact Ha.
Qed.

(** X17: over any run of frames while animating, the yaw grows by
    [rotationSpeed] times the total elapsed time and the pitch phase by
    [pitchSpeed] times it, whatever the clock readings: both depend on the
    sum of the frame times only, not on how it is cut into frames. *)
Theorem X17_frames_accumulate
        (ticks : list (R * R)) (s : HobermanSphere.HobermanSphere)
        (Ha : HobermanSphere.isAnimating s = true) :
  let s' :=
    fold_left (fun s t => HobermanSphere.update s (fst t) (snd t))
              ticks s in
  let elapsed := fold_right Rplus 0 (map snd ticks) in
  ey (rotation (HobermanSphere.sphereGroup s'))
  = ey (rotation (HobermanSphere.sphereGroup s))
    + HobermanSphere.rotationSpeed s * elapsed
  /\ HobermanSphere.currentPitch s'
     = HobermanSphere.currentPitch s
       + HobermanSphere.pitchSpeed s * elapsed
  /\ HobermanSphere.isAnimating s' = true.
Proof.
  revert s Ha. induction ticks as [| [now dt] ticks IH]; intros s Ha.
  - simpl. repeat split; try lra. exact Ha.
  - cbn [fold_left map fold_right fst snd].
    destruct (update_animating_fields s now dt Ha)
      as [Ha' [Hrs [Hps [Hy Hp]]]].
    destruct (IH _ Ha') as [IHy [IHp IHa]].
    cbv zeta in IHy, IHp, IHa.
    rewrite IHy, IHp, Hrs, Hps, Hy, Hp.
    repeat split; try lra. exact IHa.
Qed.

Lemma X17_frames_accumulate_witness :
  HobermanSphere.currentPitch
    (fold_left (fun s t => HobermanSphere.update s (fst t) (snd t))
               [(1000, 0.016); (1016, 0.020)]
               (HobermanSphere.startAnimation sample_sphere))
  = 0 + 0.1 * (0.016 + (0.020 + 0)).
Proof.
  apply (X17_frames_accumulate
           [(1000, 0.016); (1016, 0.020)]
           (HobermanSphere.startAnimation sample_sphere)).
  reflexivity.
Defined.

(** X18: the last [setExpansion] wins: two calls in a row leave the state
    the second call alone would leave, so repeating a call changes
    nothing.  A call never adds or removes a link or a child of the group
    and keeps the configuration, the animation flag, the speeds, the pitch
    phase and the rotation. *)
Theorem X18_setExpansion_last_wins
        (s : HobermanSphere.HobermanSphere) (f g : R) :
  let s' := HobermanSphere.setExpansion s g in
  HobermanSphere.setExpansion (HobermanSphere.setExpansion s f) g = s'
  /\ HobermanSphere.setExpansion s' g = s'
  /\ List.length (HobermanSphere.scissorLinks s')
     = List.length (HobermanSphere.scissorLinks s)
  /\ List.length (children (HobermanSphere.sphereGroup s'))
     = List.length (children (HobermanSphere.sphereGroup s))
  /\ HobermanSphere.config s' = HobermanSphere.config s
  /\ HobermanSphere.isAnimating s' = HobermanSphere.isAnimating s
  /\ HobermanSphere.animationSpeed s' = HobermanSphere.animationSpeed s
  /\ HobermanSphere.rotationSpeed s' = HobermanSphere.rotationSpeed s
  /\ HobermanSphere.pitchSpeed s' = HobermanSphere.pitchSpeed s
  /\ HobermanSphere.currentPitch s' = HobermanSphere.currentPitch s
  /\ rotation (HobermanSphere.sphereGroup s')
     = rotation (HobermanSphere.sphereGroup s)
  /\ HobermanSphere.material s' = HobermanSphere.material s.
Proof.
  intros s'. subst s'.
  rewrite !sphere_setExpansion_overwrites.
  rewrite sphere_setExpansion_links, sphere_setExpansion_children,
    !length_map.
  repeat split.
Qed.

(** ** Colour and material *)

Lemma retexture_overwrites (a b : Material) (c : Child) :
  HobermanSphere.retexture b (HobermanSphere.retexture a c)
  = HobermanSphere.retexture b c.
Proof.
  destruct c as [i part | [g mt pos qt sc [d |]]]; reflexivity.
Qed.

Lemma retexture_commutes_with_update
      (s1 s2 : HobermanSphere.HobermanSphere) (m : Material) (c : Child) :
  minRadius (HobermanSphere.config s1) = minRadius (HobermanSphere.config s2) ->
  maxRadius (HobermanSphere.config s1) = maxRadius (HobermanSphere.config s2) ->
  HobermanSphere.expansionFactor s1 = HobermanSphere.expansionFactor s2 ->
  HobermanSphere.retexture m (HobermanSphere.updateConnectionStrut s1 c)
  = HobermanSphere.updateConnectionStrut s2 (HobermanSphere.retexture m c).
Proof.
  intros Hmin Hmax Hef.
  destruct c as [i part | [g mt pos qt sc [d |]]]; try reflexivity.
  destruct g; simpl; rewrite Hmin, Hmax, Hef; reflexivity.
Qed.

Lemma retexture_shares (m : Material) (cs : list Child) :
  Forall (fun c =>
            match c with
            | LinkMesh _ _ => True
            | OwnMesh o =>
                isConnectionStrut (Mesh.userData o) = true ->
                Mesh.material o = m
            end)
         (map (HobermanSphere.retexture m) cs).
Proof.
  apply Forall_forall. intros c Hc.
  apply in_map_iff in Hc. destruct Hc as [c0 [<- _]].
  destruct c0 as [i part | [g mt pos qt sc [d |]]]; simpl; auto.
  intros H. discriminate H.
Qed.

Lemma updateMaterial_shares (m : Material)
      (ls : list ScissorLink.ScissorLink) :
  Forall (fun l =>
            ScissorLink.material l = m
            /\ Mesh.material (ScissorLink.strut1 l) = m
            /\ Mesh.material (ScissorLink.strut2 l) = m
            /\ Mesh.material (ScissorLink.pivot l) = m)
         (map (fun link => ScissorLink.updateMaterial link m) ls).
Proof.
  apply Forall_forall. intros l Hl.
  apply in_map_iff in Hl. destruct Hl as [l0 [<- _]].
  repeat split.
Qed.

Lemma retexture_skeleton (m : Material) (cs : list Child) :
  map childSkeleton (map (HobermanSphere.retexture m) cs)
  = map childSkeleton cs.
Proof.
  rewrite map_map. apply map_ext. intros c.
  destruct c as [i part | [g mt pos qt sc [d |]]]; reflexivity.
Qed.

Lemma updateMaterial_skeleton (m : Material)
      (ls : list ScissorLink.ScissorLink) :
  map linkSkeleton (map (fun link => ScissorLink.updateMaterial link m) ls)
  = map linkSkeleton ls.
Proof. rewrite map_map. apply map_ext. intros l. reflexivity. Qed.

Lemma sphere_ext (a b : HobermanSphere.HobermanSphere) :
  HobermanSphere.config a = HobermanSphere.config b ->
  HobermanSphere.expansionFactor a = HobermanSphere.expansionFactor b ->
  HobermanSphere.isAnimating a = HobermanSphere.isAnimating b ->
  HobermanSphere.animationSpeed a = HobermanSphere.animationSpeed b ->
  HobermanSphere.rotationSpeed a = HobermanSphere.rotationSpeed b ->
  HobermanSphere.pitchSpeed a = HobermanSphere.pitchSpeed b ->
  HobermanSphere.currentPitch a = HobermanSphere.currentPitch b ->
  HobermanSphere.scissorLinks a = HobermanSphere.scissorLinks b ->
  children (HobermanSphere.sphereGroup a)
  = children (HobermanSphere.sphereGroup b) ->
  rotation (HobermanSphere.sphereGroup a)
  = rotation (HobermanSphere.sphereGroup b) ->
  HobermanSphere.material a = HobermanSphere.material b ->
  a = b.
Proof.
  destruct a as [c1 e1 a1 s1 r1 p1 cp1 l1 [ch1 ro1] m1].
  destruct b as [c2 e2 a2 s2 r2 p2 cp2 l2 [ch2 ro2] m2].
  simpl. intros. subst. reflexivity.
Qed.

Lemma link_material_commutes
      (l : ScissorLink.ScissorLink) (m : Material) (x : R) :
  ScissorLink.updateMaterial (ScissorLink.setExpansion l x) m
  = ScissorLink.setExpansion (ScissorLink.updateMaterial l m) x.
Proof. reflexivity. Qed.

Lemma updateMaterialType_links
      (s : HobermanSphere.HobermanSphere) (type : string) :
  HobermanSphere.scissorLinks (fst (HobermanSphere.updateMaterialType s type))
  = map (fun link =>
           ScissorLink.updateMaterial
             link
             (HobermanSphere.createMaterial
                (cfg_color (HobermanSphere.config s)) type))
        (HobermanSphere.scissorLinks s).
Proof. reflexivity. Qed.

Lemma updateMaterialType_children
      (s : HobermanSphere.HobermanSphere) (type : string) :
  children
    (HobermanSphere.sphereGroup
       (fst (HobermanSphere.updateMaterialType s type)))
  = map (HobermanSphere.retexture
           (HobermanSphere.createMaterial
              (cfg_color (HobermanSphere.config s)) type))
        (children (HobermanSphere.sphereGroup s)).
Proof. reflexivity. Qed.

Lemma updateColor_links (s : HobermanSphere.HobermanSphere) (c : R) :
  HobermanSphere.scissorLinks (HobermanSphere.updateColor s c)
  = map (fun link =>
           ScissorLink.updateMaterial
             link (HobermanSphere.setHex (HobermanSphere.material s) c))
        (HobermanSphere.scissorLinks s).
Proof. reflexivity. Qed.

Lemma updateColor_children (s : HobermanSphere.HobermanSphere) (c : R) :
  children (HobermanSphere.sphereGroup (HobermanSphere.updateColor s c))
  = map (HobermanSphere.retexture
           (HobermanSphere.setHex (HobermanSphere.material s) c))
        (children (HobermanSphere.sphereGroup s)).
Proof. reflexivity. Qed.

(** X19: [updateMaterialType(type)] builds the material of that type in
    the current colour and hands it to the assembly, to every link and
    link mesh and to every connection strut, then disposes the previous
    material, once.  It records the type, keeps the colour, the factor and
    everything fixed at build time, and commutes with [setExpansion]. *)
Theorem X19_updateMaterialType
        (s : HobermanSphere.HobermanSphere) (type : string) (f : R) :
  let s' := fst (HobermanSphere.updateMaterialType s type) in
  HobermanSphere.material s'
  = HobermanSphere.createMaterial
      (cfg_color (HobermanSphere.config s)) type
  /\ shares_material s'
  /\ snd (HobermanSphere.updateMaterialType s type)
     = [DisposeMaterial (HobermanSphere.material s)]
  /\ materialType (HobermanSphere.config s') = type
  /\ cfg_color (HobermanSphere.config s')
     = cfg_color (HobermanSphere.config s)
  /\ HobermanSphere.expansionFactor s' = HobermanSphere.expansionFactor s
  /\ skeleton s' = skeleton s
  /\ fst (HobermanSphere.updateMaterialType
            (HobermanSphere.setExpansion s f) type)
     = HobermanSphere.setExpansion s' f.
Proof.
  intros s'.
  split; [reflexivity |].
  split.
  { split; [apply updateMaterial_shares | apply retexture_shares]. }
  split; [reflexivity |].
  split; [reflexivity |].
  split; [reflexivity |].
  split; [reflexivity |].
  split.
  { unfold skeleton, s'.
    rewrite updateMaterialType_links, updateMaterialType_children,
      updateMaterial_skeleton, retexture_skeleton. reflexivity. }
  subst s'. apply sphere_ext; try reflexivity.
  - rewrite sphere_setExpansion_links, !updateMaterialType_links,
      sphere_setExpansion_links, !map_map.
    apply map_ext. intros l. apply link_material_commutes.
  - rewrite sphere_setExpansion_children, !updateMaterialType_children,
      sphere_setExpansion_children, !map_map.
    apply map_ext. intros c.
    apply retexture_commutes_with_update; reflexivity.
Qed.

Lemma createMaterial_recognised (c0 c : R) (type : string) :
  type = "metallic"%string \/ type = "matte"%string
  \/ type = "glossy"%string ->
  HobermanSphere.setHex (HobermanSphere.createMaterial c0 type) c
  = HobermanSphere.createMaterial c type.
Proof.
  intros [-> | [-> | ->]]; reflexivity.
Qed.

Lemma createMaterial_fallback (c : R) (type : string) :
  type <> "metallic"%string -> type <> "matte"%string ->
  type <> "glossy"%string ->
  HobermanSphere.createMaterial c type = MeshStandardMaterial c 0.9 0.2 0 1.
Proof.
  intros H1 H2 H3. unfold HobermanSphere.createMaterial.
  apply String.eqb_neq in H1. apply String.eqb_neq in H2.
  apply String.eqb_neq in H3. rewrite H1, H2, H3. reflexivity.
Qed.

(** X20: [updateColor(c)] gives the assembly's material, and with it every
    link, link mesh and connection strut, the colour and the emissive
    colour [c], keeping metalness, roughness and emissive intensity.  For
    the types "metallic", "matte" and "glossy" it commutes with
    [updateMaterialType].  For any other type string it does not: chosen
    last, the fallback material has no emissive colour, while after a
    later [updateColor(c)] it glows in [c]. *)
Theorem X20_colour_and_type
        (s : HobermanSphere.HobermanSphere) (c : R) (type : string) :
  let coloured := HobermanSphere.updateColor s c in
  let typed := fst (HobermanSphere.updateMaterialType s type) in
  HobermanSphere.material coloured
  = MeshStandardMaterial
      c (metalness (HobermanSphere.material s))
      (roughness (HobermanSphere.material s))
      c (emissiveIntensity (HobermanSphere.material s))
  /\ shares_material coloured
  /\ cfg_color (HobermanSphere.config coloured) = c
  /\ skeleton coloured = skeleton s
  /\ (type = "metallic"%string \/ type = "matte"%string
      \/ type = "glossy"%string ->
      fst (HobermanSphere.updateMaterialType coloured type)
      = HobermanSphere.updateColor typed c)
  /\ (type <> "metallic"%string -> type <> "matte"%string ->
      type <> "glossy"%string ->
      emissive
        (HobermanSphere.material
           (fst (HobermanSphere.updateMaterialType coloured type)))
      = 0
      /\ emissive
           (HobermanSphere.material (HobermanSphere.updateColor typed c))
         = c).
Proof.
  intros coloured typed.
  split; [reflexivity |].
  split.
  { split; [apply updateMaterial_shares | apply retexture_shares]. }
  split; [reflexivity |].
  split.
  { unfold skeleton, coloured.
    rewrite updateColor_links, updateColor_children,
      updateMaterial_skeleton, retexture_skeleton. reflexivity. }
  split.
  - intros Ht. subst coloured typed.
    assert (Hm : HobermanSphere.setHex
                   (HobermanSphere.createMaterial
                      (cfg_color (HobermanSphere.config s)) type) c
                 = HobermanSphere.createMaterial c type)
      by (apply createMaterial_recognised, Ht).
    apply sphere_ext; try reflexivity.
    + rewrite updateMaterialType_links, !updateColor_links,
        updateMaterialType_links, !map_map.
      change (HobermanSphere.material
                (fst (HobermanSphere.updateMaterialType s type)))
        with (HobermanSphere.createMaterial
                (cfg_color (HobermanSphere.config s)) type).
      rewrite Hm. apply map_ext. intros l. reflexivity.
    + rewrite updateMaterialType_children, !updateColor_children,
        updateMaterialType_children, !map_map.
      change (HobermanSphere.material
                (fst (HobermanSphere.updateMaterialType s type)))
        with (HobermanSphere.createMaterial
                (cfg_color (HobermanSphere.config s)) type).
      rewrite Hm. apply map_ext. intros ch.
      rewrite !retexture_overwrites. reflexivity.
    + change (HobermanSphere.createMaterial c type
              = HobermanSphere.setHex
                  (HobermanSphere.createMaterial
                     (cfg_color (HobermanSphere.config s)) type) c).
      symmetry. exact Hm.
  - intros H1 H2 H3. subst coloured typed.
    change (emissive (HobermanSphere.createMaterial c type) = 0
            /\ emissive
                 (HobermanSphere.setHex
                    (HobermanSphere.createMaterial
                       (cfg_color (HobermanSphere.config s)) type) c)
               = c).
    rewrite !createMaterial_fallback by assumption.
    split; reflexivity.
Qed.

Lemma X20_colour_and_type_witness :
  fst (HobermanSphere.updateMaterialType
         (HobermanSphere.updateColor sample_sphere 255) "matte")
  = HobermanSphere.updateColor
      (fst (HobermanSphere.updateMaterialType sample_sphere "matte")) 255
  /\ emissive
       (HobermanSphere.material
          (HobermanSphere.updateColor
             (fst (HobermanSphere.updateMaterialType sample_sphere "wood"))
             255))
     = 255.
Proof.
  destruct (X20_colour_and_type sample_sphere 255 "matte")
    as [_ [_ [_ [_ [Hc _]]]]].
  destruct (X20_colour_and_type sample_sphere 255 "wood")
    as [_ [_ [_ [_ [_ Hf]]]]].
  split.
  - apply Hc. right. left. reflexivity.
  - apply Hf; intros E; discriminate E.
Defined.

(** ** States reachable through the public methods *)

Lemma update_as_setExpansion
      (s : HobermanSphere.HobermanSphere) (now deltaTime : R) :
  HobermanSphere.isAnimating s = true ->
  let s' := HobermanSphere.update s now deltaTime in
  let e :=
    HobermanSphere.setExpansion
      s (sin (now * 0.001 * HobermanSphere.animationSpeed s) * 0.5 + 0.5) in
  HobermanSphere.expansionFactor s' = HobermanSphere.expansionFactor e
  /\ HobermanSphere.scissorLinks s' = HobermanSphere.scissorLinks e
  /\ children (HobermanSphere.sphereGroup s')
     = children (HobermanSphere.sphereGroup e)
  /\ HobermanSphere.material s' = HobermanSphere.material e
  /\ HobermanSphere.config s' = HobermanSphere.config e.
Proof.
  intros Ha. unfold HobermanSphere.update. rewrite Ha. repeat split.
Qed.

Lemma setExpansion_shares_material
      (s : HobermanSphere.HobermanSphere) (f : R) :
  shares_material s -> shares_material (HobermanSphere.setExpansion s f).
Proof.
  intros [Hl Hc]. split.
  - rewrite sphere_setExpansion_links.
    change (HobermanSphere.material (HobermanSphere.setExpansion s f))
      with (HobermanSphere.material s).
    apply Forall_forall. intros l Hin.
    apply in_map_iff in Hin. destruct Hin as [l0 [<- Hin]].
    rewrite Forall_forall in Hl. apply (Hl l0 Hin).
  - rewrite sphere_setExpansion_children.
    change (HobermanSphere.material (HobermanSphere.setExpansion s f))
      with (HobermanSphere.material s).
    apply Forall_forall. intros c Hin.
    apply in_map_iff in Hin. destruct Hin as [c0 [<- Hin]].
    rewrite Forall_forall in Hc. specialize (Hc c0 Hin).
    destruct c0 as [i part | [g mt pos qt sc [d |]]]; simpl; auto.
    destruct g; simpl in *; exact Hc.
Qed.

Lemma setExpansion_shares_factor
      (s : HobermanSphere.HobermanSphere) (f : R) :
  shares_factor (HobermanSphere.setExpansion s f).
Proof.
  split.
  - rewrite sphere_setExpansion_factor. apply clamp_range.
  - apply links_follow_setExpansion.
Qed.

Lemma updateMaterial_keeps_factor (m : Material) (e : R)
      (ls : list ScissorLink.ScissorLink) :
  Forall (fun l => ScissorLink.expansionFactor l = e) ls ->
  Forall (fun l => ScissorLink.expansionFactor l = e)
         (map (fun link => ScissorLink.updateMaterial link m) ls).
Proof.
  intros H. apply Forall_forall. intros l Hin.
  apply in_map_iff in Hin. destruct Hin as [l0 [<- Hin]].
  rewrite Forall_forall in H. apply (H l0 Hin).
Qed.

Lemma perform_shares_factor
      (s : HobermanSphere.HobermanSphere) (c : Command) :
  shares_factor s -> shares_factor (perform s c).
Proof.
  intros [Hr Hl].
  destruct c as [f | color | type | | | | now dt]; cbn [perform].
  - apply setExpansion_shares_factor.
  - split; [exact Hr | apply updateMaterial_keeps_factor, Hl].
  - split; [exact Hr | apply updateMaterial_keeps_factor, Hl].
  - split; assumption.
  - split; assumption.
  - split; assumption.
  - destruct (HobermanSphere.isAnimating s) eqn:Ha.
    + destruct (update_as_setExpansion s now dt Ha) as [He [Hls _]].
      unfold shares_factor. rewrite He, Hls.
      apply setExpansion_shares_factor.
    + unfold HobermanSphere.update. rewrite Ha. split; assumption.
Qed.

Lemma perform_shares_material
      (s : HobermanSphere.HobermanSphere) (c : Command) :
  shares_material s -> shares_material (perform s c).
Proof.
  intros H.
  destruct c as [f | color | type | | | | now dt]; cbn [perform].
  - apply setExpansion_shares_material, H.
  - split; [apply updateMaterial_shares | apply retexture_shares].
  - split; [apply updateMaterial_shares | apply retexture_shares].
  - exact H.
  - exact H.
  - exact H.
  - destruct (HobermanSphere.isAnimating s) eqn:Ha.
    + destruct (update_as_setExpansion s now dt Ha)
        as [_ [Hls [Hch [Hm _]]]].
      unfold shares_material. rewrite Hls, Hch, Hm.
      apply (setExpansion_shares_material s _ H).
    + unfold HobermanSphere.update. rewrite Ha. exact H.
Qed.

Lemma setExpansion_skeleton (s : HobermanSphere.HobermanSphere) (f : R) :
  skeleton (HobermanSphere.setExpansion s f) = skeleton s.
Proof.
  unfold skeleton.
  rewrite sphere_setExpansion_links, sphere_setExpansion_children,
    !map_map.
  change (HobermanSphere.config (HobermanSphere.setExpansion s f))
    with (HobermanSphere.config s).
  apply f_equal2; [apply f_equal2; [reflexivity |] |].
  - apply map_ext. intros l. reflexivity.
  - apply map_ext. intros c.
    destruct c as [i part | [g mt pos qt sc [d |]]]; try reflexivity.
    destruct g; reflexivity.
Qed.

Lemma perform_skeleton (s : HobermanSphere.HobermanSphere) (c : Command) :
  skeleton (perform s c) = skeleton s.
Proof.
  destruct c as [f | color | type | | | | now dt]; cbn [perform].
  - apply setExpansion_skeleton.
  - unfold skeleton.
    rewrite updateColor_links, updateColor_children,
      updateMaterial_skeleton, retexture_skeleton. reflexivity.
  - unfold skeleton.
    rewrite updateMaterialType_links, updateMaterialType_children,
      updateMaterial_skeleton, retexture_skeleton. reflexivity.
  - reflexivity.
  - reflexivity.
  - reflexivity.
  - destruct (HobermanSphere.isAnimating s) eqn:Ha.
    + destruct (update_as_setExpansion s now dt Ha)
        as [_ [Hls [Hch [_ Hcfg]]]].
      unfold skeleton. rewrite Hls, Hch, Hcfg.
      apply setExpansion_skeleton.
    + unfold HobermanSphere.update. rewrite Ha. reflexivity.
Qed.

Lemma built_shares
      (IcosahedronGeometry : R -> R -> list R) (options : Options) :
  exists s,
    HobermanSphere.constructor IcosahedronGeometry options = Normal s
    /\ shares_factor s /\ shares_material s.
Proof.
  destruct (constructor_built IcosahedronGeometry options) as [ls [Hs Hall]].
  eexists. split; [exact Hs |].
  assert (Hls : Forall
                  (fun l =>
                     ScissorLink.expansionFactor l = 0.5
                     /\ ScissorLink.material l
                        = HobermanSphere.createMaterial
                            (cfg_color (configOf options))
                            (materialType (configOf options))
                     /\ Mesh.material (ScissorLink.strut1 l)
                        = HobermanSphere.createMaterial
                            (cfg_color (configOf options))
                            (materialType (configOf options))
                     /\ Mesh.material (ScissorLink.strut2 l)
                        = HobermanSphere.createMaterial
                            (cfg_color (configOf options))
                            (materialType (configOf options))
                     /\ Mesh.material (ScissorLink.pivot l)
                        = HobermanSphere.createMaterial
                            (cfg_color (configOf options))
                            (materialType (configOf options))) ls).
  { clear Hs. induction Hall as [| v l vs ls Hb _ IH]; constructor;
      [| exact IH].
    unfold built_for, ScissorLink.constructor in Hb.
    injection Hb as Hb. subst l. repeat split. }
  split.
  - split; [cbn [HobermanSphere.expansionFactor]; lra |].
    cbn [HobermanSphere.scissorLinks HobermanSphere.expansionFactor].
    eapply Forall_impl; [| exact Hls]. intros l H. apply H.
  - split.
    + cbn [HobermanSphere.scissorLinks HobermanSphere.material].
      eapply Forall_impl; [| exact Hls]. intros l H. apply H.
    + cbn [HobermanSphere.sphereGroup children HobermanSphere.material].
      apply Forall_app. split.
      * apply Forall_forall. intros c Hc.
        apply in_flat_map in Hc. destruct Hc as [i [_ Hc]].
        destruct Hc as [<- | [<- | [<- | []]]]; exact I.
      * apply Forall_forall. intros c Hc.
        apply in_map_iff in Hc. destruct Hc as [pq [<- _]].
        intros _. reflexivity.
Qed.

(** X21: in every state reached from construction by any sequence of
    [setExpansion], [updateColor], [updateMaterialType], [startAnimation],
    [stopAnimation], [toggleAnimation] and [update] calls, the expansion
    factor lies in [[0,1]] and is the factor of every link, and the
    assembly's material is the material of every link, of every link mesh
    and of every connection strut. *)
Theorem X21_reachable_states_share
        (IcosahedronGeometry : R -> R -> list R) (options : Options) :
  exists s0,
    HobermanSphere.constructor IcosahedronGeometry options = Normal s0
    /\ forall cs : list Command,
        shares_factor (run cs s0) /\ shares_material (run cs s0).
Proof.
  destruct (built_shares IcosahedronGeometry options)
    as [s0 [Hs [Hf Hm]]].
  exists s0. split; [exact Hs |].
  intros cs. clear Hs. revert s0 Hf Hm.
  induction cs as [| c cs IH]; intros s0 Hf Hm.
  - split; assumption.
  - change (run (c :: cs) s0) with (run cs (perform s0 c)).
    apply (IH (perform s0 c)).
    + apply perform_shares_factor, Hf.
    + apply perform_shares_material, Hm.
Qed.

(** X22: no sequence of those calls changes what was fixed when the
    assembly was built: the radii and the subdivision level of the
    configuration, the centre, axis, strut length, strut radius and
    geometries of every link, and the order, the link references, the
    stored endpoints and the geometries of the children of the group.
    Nothing is added, removed or reordered. *)
Theorem X22_methods_keep_skeleton
        (s : HobermanSphere.HobermanSphere) (cs : list Command) :
  skeleton (run cs s) = skeleton s
  /\ List.length (HobermanSphere.scissorLinks (run cs s))
     = List.length (HobermanSphere.scissorLinks s)
  /\ List.length (children (HobermanSphere.sphereGroup (run cs s)))
     = List.length (children (HobermanSphere.sphereGroup s)).
Proof.
  assert (H : skeleton (run cs s) = skeleton s).
  { revert s. induction cs as [| c cs IH]; intros s; [reflexivity |].
    change (run (c :: cs) s) with (run cs (perform s c)).
    rewrite (IH (perform s c)). apply perform_skeleton. }
  split; [exact H |].
  unfold skeleton in H. injection H as _ _ _ _ Hl Hc.
  split.
  - rewrite <- (length_map linkSkeleton), Hl, length_map. reflexivity.
  - rewrite <- (length_map childSkeleton), Hc, length_map. reflexivity.
Qed.

(** ** Tearing the assembly down *)

Lemma remove_link_children (i : nat) (rest : list Child) :
  fold_left (fun cs part => HobermanSphere.removeLinkMesh i part cs)
            [Strut1; Strut2; Pivot] (linkChildren i ++ rest)
  = rest.
Proof.
  cbn [linkChildren app fold_left HobermanSphere.removeLinkMesh].
  rewrite Nat.eqb_refl. cbn [HobermanSphere.LinkPart_eqb andb].
  cbn [HobermanSphere.removeLinkMesh].
  rewrite Nat.eqb_refl. cbn [HobermanSphere.LinkPart_eqb andb].
  cbn [HobermanSphere.removeLinkMesh].
  rewrite Nat.eqb_refl. reflexivity.
Qed.

Lemma dispose_links (ls : list ScissorLink.ScissorLink) :
  forall (a : nat) (rest : list Child) (log : list Disposal),
    fold_left
      (fun (acc : list Child * list Disposal)
           (il : nat * ScissorLink.ScissorLink) =>
         let '(cs, log) := acc in
         let '(i, link) := il in
         let '(removed, disposed) := ScissorLink.dispose link in
         (fold_left (fun cs part => HobermanSphere.removeLinkMesh i part cs)
                    removed cs,
          log ++ disposed))
      (combine (seq a (List.length ls)) ls)
      (flat_map linkChildren (seq a (List.length ls)) ++ rest, log)
    = (rest, log ++ flat_map (fun l => snd (ScissorLink.dispose l)) ls).
Proof.
  induction ls as [| l ls IH]; intros a rest log.
  - simpl. rewrite app_nil_r. reflexivity.
  - cbn [List.length seq combine flat_map fold_left].
    match goal with
    | |- fold_left _ _ ?init = _ =>
        assert (Hinit :
                 init
                 = (flat_map linkChildren (seq (S a) (List.length ls))
                    ++ rest,
                    log ++ snd (ScissorLink.dispose l)))
    end.
    { cbn [ScissorLink.dispose snd].
      rewrite <- app_assoc, remove_link_children. reflexivity. }
    rewrite Hinit, IH, <- app_assoc. reflexivity.
Qed.

Lemma materialDisposals_app (a b : list Disposal) :
  materialDisposals (a ++ b) = materialDisposals a ++ materialDisposals b.
Proof. unfold materialDisposals. apply flat_map_app. Qed.

Lemma geometryDisposals_app (a b : list Disposal) :
  geometryDisposals (a ++ b) = geometryDisposals a ++ geometryDisposals b.
Proof. unfold geometryDisposals. apply flat_map_app. Qed.

Lemma own_mesh_disposals (links : list ScissorLink.ScissorLink)
      (ms : list Mesh.Mesh) :
  let log :=
    flat_map
      (fun child =>
         match HobermanSphere.meshOf links child with
         | Some m =>
             [DisposeGeometry (Mesh.geometry m);
              DisposeMaterial (Mesh.material m)]
         | None => []
         end)
      (map OwnMesh ms) in
  materialDisposals log = map Mesh.material ms
  /\ geometryDisposals log = map Mesh.geometry ms
  /\ List.length log = (2 * List.length ms)%nat.
Proof.
  induction ms as [| m ms [IH1 [IH2 IH3]]]; [repeat split |].
  cbv zeta in *. cbn [map flat_map HobermanSphere.meshOf app].
  unfold materialDisposals, geometryDisposals in *.
  cbn [flat_map app List.length]. rewrite IH1, IH2, IH3.
  repeat split. lia.
Qed.

Lemma link_disposals (ls : list ScissorLink.ScissorLink) :
  let log := flat_map (fun l => snd (ScissorLink.dispose l)) ls in
  materialDisposals log = []
  /\ geometryDisposals log
     = flat_map (fun l => [Mesh.geometry (ScissorLink.strut1 l);
                           Mesh.geometry (ScissorLink.strut2 l);
                           Mesh.geometry (ScissorLink.pivot l)]) ls
  /\ List.length log = (3 * List.length ls)%nat.
Proof.
  induction ls as [| l ls [IH1 [IH2 IH3]]]; [repeat split |].
  cbv zeta in *. cbn [flat_map].
  rewrite materialDisposals_app, geometryDisposals_app, length_app,
    IH1, IH2, IH3.
  repeat split. cbn [ScissorLink.dispose snd List.length]. lia.
Qed.

(** X23: [dispose()] on an assembly whose group holds the three meshes of
    each link, in link order, followed by meshes of its own (the layout the
    constructor builds) empties the list of links and takes every link
    mesh out of the group, but leaves the other meshes in it.  It disposes
    the three geometries of each link, then the geometry and the material
    of each remaining mesh, then the assembly's material: with [n] links
    and [k] other meshes, [3*n + 2*k + 1] disposals, [k + 1] of them of a
    material. *)
Theorem X23_dispose
        (s : HobermanSphere.HobermanSphere) (ms : list Mesh.Mesh)
        (Hlayout :
           children (HobermanSphere.sphereGroup s)
           = flat_map linkChildren
               (seq 0 (List.length (HobermanSphere.scissorLinks s)))
             ++ map OwnMesh ms) :
  let s' := fst (HobermanSphere.dispose s) in
  let log := snd (HobermanSphere.dispose s) in
  HobermanSphere.scissorLinks s' = []
  /\ children (HobermanSphere.sphereGroup s') = map OwnMesh ms
  /\ geometryDisposals log
     = flat_map (fun l => [Mesh.geometry (ScissorLink.strut1 l);
                           Mesh.geometry (ScissorLink.strut2 l);
                           Mesh.geometry (ScissorLink.pivot l)])
                (HobermanSphere.scissorLinks s)
       ++ map Mesh.geometry ms
  /\ materialDisposals log
     = map Mesh.material ms ++ [HobermanSphere.material s]
  /\ List.length log
     = (3 * List.length (HobermanSphere.scissorLinks s)
        + 2 * List.length ms + 1)%nat.
Proof.
  intros s' log. subst s' log.
  unfold HobermanSphere.dispose. rewrite Hlayout.
  rewrite (dispose_links (HobermanSphere.scissorLinks s) 0
                         (map OwnMesh ms) []).
  cbn [fst snd app].
  destruct (link_disposals (HobermanSphere.scissorLinks s))
    as [Lm [Lg Ll]].
  destruct (own_mesh_disposals (HobermanSphere.scissorLinks s) ms)
    as [Om [Og Ol]].
  cbv zeta in Lm, Lg, Ll, Om, Og, Ol.
  rewrite !materialDisposals_app, !geometryDisposals_app, !length_app,
    Lm, Lg, Ll, Om, Og, Ol.
  cbn [materialDisposals geometryDisposals flat_map app List.length].
  rewrite !app_nil_r.
  repeat split; lia.
Qed.

Lemma X23_dispose_witness :
  children
    (HobermanSphere.sphereGroup (fst (HobermanSphere.dispose sample_sphere)))
  = [OwnMesh (connectionStrutMesh 0.08 sample_material
                                  (V3 1 0 0) (V3 0 1 0))]
  /\ List.length (snd (HobermanSphere.dispose sample_sphere)) = 6%nat.
Proof.
  destruct (X23_dispose
              sample_sphere
              [connectionStrutMesh 0.08 sample_material (V3 1 0 0) (V3 0 1 0)]
              eq_refl)
    as [_ [Hc [_ [_ Hl]]]].
  split; [exact Hc | exact Hl].
Defined.

(** ** The orbit controls *)

Lemma phi_clamp_range (x : R) :
  0.1 <= Rmax 0.1 (Rmin (Math_PI - 0.1) x) <= Math_PI - 0.1.
Proof.
  pose proof Math_PI_range as Hpi.
  unfold Rmax, Rmin.
  destruct (Rle_dec (Math_PI - 0.1) x); destruct (Rle_dec 0.1 _); lra.
Qed.

Lemma radius_clamp_range (x : R) : 12 <= Rmax 12 (Rmin 60 x) <= 60.
Proof.
  unfold Rmax, Rmin.
  destruct (Rle_dec 60 x); destruct (Rle_dec 12 _); lra.
Qed.

Lemma drag_orbit_ok (c : Controls.Controls) (e : Pointer) :
  orbit_ok c -> orbit_ok (Controls.drag c e).
Proof.
  intros [_ [Hr _]]. unfold orbit_ok, Controls.drag.
  cbn [Controls.cameraRotation Controls.camera Controls.set_mouse
       Controls.updateCameraPosition Controls.set_camera
       Controls.set_cameraRotation phi radius theta].
  split; [apply phi_clamp_range | split; [exact Hr | reflexivity]].
Qed.

Lemma dispatch_orbit_ok (c : Controls.Controls) (e : PointerEvent) :
  orbit_ok c -> orbit_ok (dispatch c e).
Proof.
  intros H.
  destruct e as [ev | ev | | dy | ts | ts |]; cbn [dispatch].
  - exact H.
  - unfold Controls.onMouseMove.
    destruct (negb _); [exact H | apply drag_orbit_ok, H].
  - exact H.
  - destruct H as [Hp _]. unfold orbit_ok, Controls.onMouseWheel.
    cbn [Controls.cameraRotation Controls.camera
         Controls.updateCameraPosition Controls.set_camera
         Controls.set_cameraRotation phi radius theta].
    split; [exact Hp | split; [apply radius_clamp_range | reflexivity]].
  - unfold Controls.onTouchStart.
    destruct ts as [| t [| t' ts]]; exact H.
  - unfold Controls.onTouchMove.
    destruct ts as [| t [| t' ts]]; try exact H.
    destruct (negb _); [exact H | apply drag_orbit_ok, H].
  - exact H.
Qed.

Lemma constructor_orbit_ok (camera : Vector3) (btn : Button) :
  orbit_ok (Controls.constructor camera btn).
Proof.
  pose proof Math_PI_range as Hpi.
  unfold orbit_ok, Controls.constructor, Controls.initOrbitControls.
  cbn [Controls.cameraRotation Controls.camera Controls.set_mouse
       Controls.updateCameraPosition Controls.set_camera
       Controls.set_cameraRotation phi radius theta].
  repeat split; lra.
Qed.

Lemma spherical_length (r p t : R) :
  0 <= r ->
  Vector3.length (V3 (r * sin p * cos t) (r * cos p) (r * sin p * sin t))
  = r.
Proof.
  intros Hr. unfold Vector3.length, Vector3.lengthSq. simpl.
  pose proof (sin_cos_squares p) as Hp.
  pose proof (sin_cos_squares t) as Ht.
  apply sqrt_lem_1; [| exact Hr |].
  - pose proof (Rle_0_sqr (r * sin p * cos t)) as H1.
    pose proof (Rle_0_sqr (r * cos p)) as H2.
    pose proof (Rle_0_sqr (r * sin p * sin t)) as H3.
    unfold Rsqr in *. lra.
  - set (sp := sin p) in *. set (cp := cos p) in *.
    set (st := sin t) in *. set (ct := cos t) in *.
    transitivity (r * r * (sp * sp * (st * st + ct * ct) + cp * cp));
      [| ring].
    rewrite Ht. replace (sp * sp * 1 + cp * cp) with 1 by lra. ring.
Qed.

(** X24: whatever mouse, wheel and touch events the orbit controls
    receive after construction, the polar angle stays within
    [[0.1, Math_PI - 0.1]] and the distance within [[12, 60]]; the camera sits
    at the point the spherical coordinates give, at exactly that distance
    from the origin, and never on the vertical axis. *)
Theorem X24_orbit_stays_in_range
        (camera : Vector3) (btn : Button) (events : list PointerEvent) :
  let c := fold_left dispatch events (Controls.constructor camera btn) in
  let r := Controls.cameraRotation c in
  0.1 <= phi r <= Math_PI - 0.1
  /\ 12 <= radius r <= 60
  /\ Controls.camera c
     = V3 (radius r * sin (phi r) * cos (theta r))
          (radius r * cos (phi r))
          (radius r * sin (phi r) * sin (theta r))
  /\ Vector3.length (Controls.camera c) = radius r
  /\ Rabs (vy (Controls.camera c)) < radius r.
Proof.
  intros c r.
  assert (H : orbit_ok c).
  { subst c. generalize (constructor_orbit_ok camera btn).
    generalize (Controls.constructor camera btn).
    induction events as [| e es IH]; intros c0 H0; [exact H0 |].
    cbn [fold_left]. apply IH. apply dispatch_orbit_ok, H0. }
  destruct H as [Hp [Hr Hc]]. fold r in Hp, Hr, Hc.
  repeat split; try assumption; try lra.
  - rewrite Hc. apply spherical_length. lra.
  - rewrite Hc. cbn [vy].
    pose proof Math_PI_range as Hpi.
    assert (Hs : 0 < sin (phi r)) by (apply sin_gt_0; lra).
    pose proof (sin_cos_squares (phi r)) as Hsc.
    assert (Hcos : Rabs (cos (phi r)) < 1).
    { apply Rabs_def1; nra. }
    rewrite Rabs_mult, (Rabs_pos_eq (radius r)) by lra.
    nra.
Qed.

Lemma last_any_default {A : Type} (l : list A) (x d d' : A) :
  last (x :: l) d = last (x :: l) d'.
Proof.
  revert x. induction l as [| y l IH]; intros x; [reflexivity |].
  change (last (y :: l) d = last (y :: l) d'). apply IH.
Qed.

Lemma drag_run (moves : list Pointer) :
  forall c : Controls.Controls,
    isDragging (Controls.mouse c) = true ->
    let c' := fold_left Controls.onMouseMove moves c in
    let final :=
      last moves (mkPointer (previousX (Controls.mouse c))
                            (previousY (Controls.mouse c))) in
    theta (Controls.cameraRotation c')
    = theta (Controls.cameraRotation c)
      + (clientX final - previousX (Controls.mouse c)) * 0.01
    /\ isDragging (Controls.mouse c') = true
    /\ previousX (Controls.mouse c') = clientX final
    /\ previousY (Controls.mouse c') = clientY final
    /\ radius (Controls.cameraRotation c')
       = radius (Controls.cameraRotation c).
Proof.
  induction moves as [| e moves IH]; intros c Hd.
  - cbn [fold_left last clientX clientY]. repeat split; try lra. exact Hd.
  - cbn [fold_left].
    assert (Hstep : Controls.onMouseMove c e = Controls.drag c e).
    { unfold Controls.onMouseMove. rewrite Hd. reflexivity. }
    rewrite Hstep.
    assert (Hd' : isDragging (Controls.mouse (Controls.drag c e)) = true)
      by exact Hd.
    destruct (IH (Controls.drag c e) Hd') as [Ht [Hdr [Hx [Hy Hrad]]]].
    cbv zeta in Ht, Hdr, Hx, Hy, Hrad.
    assert (Hlast :
             last (e :: moves)
                  (mkPointer (previousX (Controls.mouse c))
                             (previousY (Controls.mouse c)))
             = last moves
                    (mkPointer
                       (previousX (Controls.mouse (Controls.drag c e)))
                       (previousY (Controls.mouse (Controls.drag c e))))).
    { destruct moves as [| e' moves'].
      - destruct e as [x y]. reflexivity.
      - cbn [last]. apply last_any_default. }
    cbv zeta. rewrite Hlast, Ht, Hdr, Hx, Hy, Hrad.
    repeat split.
    change (theta (Controls.cameraRotation (Controls.drag c e)))
      with (theta (Controls.cameraRotation c)
            + (clientX e - previousX (Controls.mouse c)) * 0.01).
    change (previousX (Controls.mouse (Controls.drag c e)))
      with (clientX e).
    lra.
Qed.

(** X25: during a drag the horizontal angle follows the pointer: after a
    mouse-down at [start] and any run of mouse moves, [theta] has changed
    by 0.01 times the horizontal distance between the last position and
    [start], whatever path the pointer took; the zoom distance is
    untouched. *)
Theorem X25_drag_follows_pointer
        (c : Controls.Controls) (start : Pointer) (moves : list Pointer) :
  let c' :=
    fold_left Controls.onMouseMove moves (Controls.onMouseDown c start) in
  theta (Controls.cameraRotation c')
  = theta (Controls.cameraRotation c)
    + (clientX (last moves start) - clientX start) * 0.01
  /\ radius (Controls.cameraRotation c')
     = radius (Controls.cameraRotation c)
  /\ isDragging (Controls.mouse c') = true.
Proof.
  intros c'.
  destruct (drag_run moves (Controls.onMouseDown c start) eq_refl)
    as [Ht [Hd [_ [_ Hr]]]].
  cbv zeta in Ht, Hd, Hr. fold c' in Ht, Hd, Hr.
  destruct start as [x y].
  repeat split; assumption.
Qed.

Lemma idle_moves (es : list PointerEvent) :
  forall c : Controls.Controls,
    isDragging (Controls.mouse c) = false ->
    forallb isMove es = true ->
    fold_left dispatch es c = c.
Proof.
  induction es as [| e es IH]; intros c Hd Hm; [reflexivity |].
  cbn [forallb] in Hm. apply andb_true_iff in Hm. destruct Hm as [He Hes].
  cbn [fold_left].
  assert (Hstep : dispatch c e = c).
  { destruct e as [ev | ev | | dy | ts | ts |]; try discriminate He;
      cbn [dispatch].
    - unfold Controls.onMouseMove. rewrite Hd. reflexivity.
    - unfold Controls.onTouchMove.
      destruct ts as [| t [| t' ts]]; try reflexivity.
      rewrite Hd. reflexivity. }
  rewrite Hstep. apply IH; assumption.
Qed.

(** X26: without a drag in progress moving does nothing: after a
    mouse-up or a touch-end, and right after construction, any run of
    mouse-move and touch-move events leaves the controls unchanged.  A
    touch with two fingers neither starts a drag nor moves the camera. *)
Theorem X26_moves_need_a_drag
        (c : Controls.Controls) (es : list PointerEvent)
        (Hmoves : forallb isMove es = true) :
  fold_left dispatch es (Controls.onMouseUp c) = Controls.onMouseUp c
  /\ fold_left dispatch es (Controls.onTouchEnd c) = Controls.onTouchEnd c
  /\ (forall camera btn,
         fold_left dispatch es (Controls.constructor camera btn)
         = Controls.constructor camera btn)
  /\ (forall t1 t2 more,
         Controls.onTouchStart c (t1 :: t2 :: more) = c
         /\ Controls.onTouchMove c (t1 :: t2 :: more) = c).
Proof.
  split; [| split; [| split]].
  - apply idle_moves; [reflexivity | exact Hmoves].
  - apply idle_moves; [reflexivity | exact Hmoves].
  - intros camera btn. apply idle_moves; [reflexivity | exact Hmoves].
  - intros t1 t2 more. split; reflexivity.
Qed.

Lemma X26_moves_need_a_drag_witness :
  fold_left dispatch
            [MouseMove (mkPointer 10 20); TouchMove [mkPointer 3 4]]
            (Controls.constructor (V3 0 5 25) (mkButton "Start" ""))
  = Controls.constructor (V3 0 5 25) (mkButton "Start" "").
Proof.
  apply (X26_moves_need_a_drag
           (Controls.constructor (V3 0 5 25) (mkButton "Start" ""))
           [MouseMove (mkPointer 10 20); TouchMove [mkPointer 3 4]]).
  reflexivity.
Defined.

(** X27: [toggleAnimation] of the controls flips their own flag and then
    sets the assembly's flag to the new value, whatever it was, and labels
    the button accordingly: afterwards the two flags agree, the button
    reads "Pause Animation" exactly when the assembly animates, and
    nothing else of the assembly has changed.  Two toggles in a row
    restore both flags. *)
Theorem X27_toggle_keeps_flags_in_step
        (c : Controls.Controls) (s : HobermanSphere.HobermanSphere) :
  let c' := fst (Controls.toggleAnimation c s) in
  let s' := snd (Controls.toggleAnimation c s) in
  Controls.isAnimating c' = negb (Controls.isAnimating c)
  /\ HobermanSphere.isAnimating s' = Controls.isAnimating c'
  /\ textContent (Controls.toggleBtn c')
     = (if HobermanSphere.isAnimating s'
        then "Pause Animation" else "Start Animation")%string
  /\ s' = HobermanSphere.set_isAnimating s (negb (Controls.isAnimating c))
  /\ Controls.cameraRotation c' = Controls.cameraRotation c
  /\ Controls.camera c' = Controls.camera c
  /\ Controls.isAnimating (fst (Controls.toggleAnimation c' s'))
     = Controls.isAnimating c
  /\ HobermanSphere.isAnimating (snd (Controls.toggleAnimation c' s'))
     = Controls.isAnimating c.
Proof.
  intros c' s'. subst c' s'. unfold Controls.toggleAnimation.
  cbn [Controls.isAnimating].
  destruct (Controls.isAnimating c); cbn; repeat split.
Qed.

(** ** Lengths of the struts as built *)

Lemma length_subVectors (p q : Vector3) :
  Vector3.length (Vector3.subVectors q p) = Vector3.distanceTo p q.
Proof.
  unfold Vector3.length, Vector3.lengthSq, Vector3.distanceTo,
    Vector3.distanceToSquared, Vector3.subVectors. simpl.
  f_equal. ring.
Qed.

Lemma connectedPairs_members (vs : list Vector3) (p q : Vector3) :
  In (p, q) (connectedPairs vs) ->
  In p vs /\ In q vs /\ Vector3.distanceTo p q < 1.2.
Proof.
  intros H. apply connectedPairs_In in H.
  destruct H as [i [j [_ [Hi [Hj Hlt]]]]].
  repeat split; [eapply nth_error_In; exact Hi
                | eapply nth_error_In; exact Hj | exact Hlt].
Qed.

(** X28: in the assembly as built every connection strut is a cylinder
    whose height is the distance between its two stored endpoints, and
    that distance is at least 0.0001 (the endpoints are two different
    unique vertices) and below 1.2 (the pair is connected). *)
Theorem X28_built_strut_lengths
        (IcosahedronGeometry : R -> R -> list R) (options : Options) :
  exists s,
    HobermanSphere.constructor IcosahedronGeometry options = Normal s
    /\ forall m d,
        In (OwnMesh m) (children (HobermanSphere.sphereGroup s)) ->
        Mesh.userData m = Some d ->
        parameters_height (Mesh.geometry m)
        = Some (Vector3.distanceTo (point1 d) (point2 d))
        /\ 0.0001 <= Vector3.distanceTo (point1 d) (point2 d) < 1.2.
Proof.
  destruct (constructor_built IcosahedronGeometry options) as [ls [Hs _]].
  eexists. split; [exact Hs |].
  cbn [HobermanSphere.sphereGroup children].
  intros m d Hin Hd.
  apply in_app_or in Hin. destruct Hin as [Hin | Hin].
  - apply in_flat_map in Hin. destruct Hin as [i [_ Hin]].
    destruct Hin as [E | [E | [E | []]]]; discriminate E.
  - apply in_map_iff in Hin. destruct Hin as [[p q] [E Hpq]].
    injection E as <-. cbn [fst snd connectionStrutMesh Mesh.userData] in Hd.
    injection Hd as <-. cbn [point1 point2 connectionStrutMesh Mesh.geometry
                             parameters_height fst snd].
    rewrite length_subVectors. split; [reflexivity |].
    set (vs := HobermanSphere.vertexPositions
                 (IcosahedronGeometry 1 (subdivisions (configOf options))))
      in *.
    destruct (far_pairs_distinct _ (dedup_far vs)) as [Hnd Hfar].
    pose proof (connectedPairs_distinct _ p q Hnd Hpq) as Hne.
    destruct (connectedPairs_members _ p q Hpq) as [Hp [Hq Hlt]].
    split; [| exact Hlt].
    apply Hfar; assumption.
Qed.

Lemma X28_built_strut_lengths_witness :
  exists s,
    HobermanSphere.constructor (two_vertices 1) sample_options = Normal s
    /\ 0.0001 <= Vector3.distanceTo (V3 1 0 0) (V3 (1 + 1) 0 0) < 1.2.
Proof.
  destruct (X28_built_strut_lengths (two_vertices 1) sample_options)
    as [s [Hs H]].
  exists s. split; [exact Hs |].
  apply (H (connectionStrutMesh
              (strutRadius (HobermanSphere.config s))
              (HobermanSphere.material s) (V3 1 0 0) (V3 (1 + 1) 0 0))
           (mkConnectionData (V3 1 0 0) (V3 (1 + 1) 0 0))).
  - destruct (constructor_built (two_vertices 1) sample_options)
      as [ls [Hs' _]].
    rewrite Hs' in Hs. injection Hs as <-.
    cbn [HobermanSphere.sphereGroup children HobermanSphere.config
         HobermanSphere.material].
    apply in_or_app. right.
    rewrite removeDuplicateVertices_two, two_vertices_distance by lra.
    replace (Rltb 1 0.0001) with false
      by (symmetry; apply Rltb_false; lra).
    cbn [connectedPairs filter map app].
    rewrite two_vertices_distance by lra.
    replace (Rltb 1 1.2) with true
      by (symmetry; apply Rltb_true; lra).
    left. reflexivity.
  - reflexivity.
Defined.
